(** * Monte Carlo project simulation: triangular sampler, iteration loop,
      histogram

    Shallow embedding of [runMonteCarlo], [triangularSample] and
    [createHistogram] (the simulation module of the repository), with the
    properties its specification states about them.

    Numbers.  A JavaScript [number] is modelled as a real extended with the
    three IEEE special values the code can produce ([NaN], [Infinity],
    [-Infinity]): division by zero, the square root of a negative number,
    [Math.min()] of no argument and comparisons with [NaN] behave as they
    do in JavaScript.  Every zero divisor of this program is a literal or a
    difference [x - x], hence a positive zero, and the model has the one
    zero.  The operations [+ - * /] and [Math_sqrt] on [number] are exact.
    What the claims rest on there (which values are [NaN], what throws,
    what is counted) does not depend on the rounding of a result; a lemma
    whose statement does says that it is about exact arithmetic.

    Rounding.  The engine rounds the result of every operation to a
    binary64 number.  Module [Rounded] embeds the sampler and the sampling
    loop over the rounded operations [rnd (a + b)], [rnd (a * b)], ..., for
    a rounding [rnd] of which only the laws of [Rounding] are used: what is
    proved there holds of binary64 and of every other such arithmetic.
    Module [Binary64] embeds the same code over the primitive binary64
    floats, operation for operation, to evaluate it on concrete inputs.

    Randomness.  [Math.random] is a process-wide generator: the model takes
    the sequence of its draws as a function [random : nat -> R] and threads
    the number of draws made so far through the code as the state.

    Exceptions.  The only statement of the module that can throw is
    [histogram[binIndex].count++], a [TypeError] when [histogram[binIndex]]
    is [undefined].

    Counts.  [iterations] is an integer ([Z]: the loop runs [iterations]
    times, none when it is not positive) and [bins], the length of an array,
    a natural number; the counters [successes] and [count] are natural
    numbers. *)

From Stdlib Require Import Reals Zfloor Lra Lia ZArith List Bool.
From Stdlib Require Ascii String PrimFloat.
Import String.StringSyntax.
Import ListNotations.
Open Scope R_scope.

(** ** JavaScript numbers *)

Inductive number : Type :=
| Num (x : R)
| PosInf
| NegInf
| NaN.

Declare Scope js_scope.
Delimit Scope js_scope with js.
Bind Scope js_scope with number.

(** Sign of a real, as used by the special cases of [*] and [/]. *)
Inductive sign : Type := Neg | Zero | Pos.

Definition Rsign (x : R) : sign :=
  match total_order_T x 0 with
  | inleft (left _) => Neg
  | inleft (right _) => Zero
  | inright _ => Pos
  end.

Definition Rltb (x y : R) : bool := if Rlt_dec x y then true else false.
Definition Rleb (x y : R) : bool := if Rle_dec x y then true else false.

Definition nopp (a : number) : number :=
  match a with
  | Num x => Num (- x)
  | PosInf => NegInf
  | NegInf => PosInf
  | NaN => NaN
  end.

Definition nadd (a b : number) : number :=
  match a, b with
  | NaN, _ | _, NaN => NaN
  | Num x, Num y => Num (x + y)
  | PosInf, NegInf | NegInf, PosInf => NaN
  | PosInf, _ | _, PosInf => PosInf
  | NegInf, _ | _, NegInf => NegInf
  end.

Definition nsub (a b : number) : number := nadd a (nopp b).

(** An infinity of the sign of [s]; [0 * Infinity] is [NaN]. *)
Definition inf_of (s : sign) : number :=
  match s with Pos => PosInf | Neg => NegInf | Zero => NaN end.

Definition nmul (a b : number) : number :=
  match a, b with
  | NaN, _ | _, NaN => NaN
  | Num x, Num y => Num (x * y)
  | Num x, PosInf | PosInf, Num x => inf_of (Rsign x)
  | Num x, NegInf | NegInf, Num x => nopp (inf_of (Rsign x))
  | PosInf, PosInf | NegInf, NegInf => PosInf
  | PosInf, NegInf | NegInf, PosInf => NegInf
  end.

Definition ndiv (a b : number) : number :=
  match a, b with
  | NaN, _ | _, NaN => NaN
  | Num x, Num y =>
      match Rsign y with
      | Zero => inf_of (Rsign x)          (* x / 0: Infinity, -Infinity, NaN *)
      | _ => Num (x / y)
      end
  | Num _, _ => Num 0
  | PosInf, Num y => match Rsign y with Neg => NegInf | _ => PosInf end
  | NegInf, Num y => match Rsign y with Neg => PosInf | _ => NegInf end
  | _, _ => NaN                           (* Infinity / Infinity *)
  end.

Definition Math_sqrt (a : number) : number :=
  match a with
  | Num x => if Rltb x 0 then NaN else Num (sqrt x)
  | PosInf => PosInf
  | _ => NaN
  end.

Definition Math_floor (a : number) : number :=
  match a with
  | Num x => Num (IZR (Zfloor x))
  | _ => a
  end.

(** [Math.round]: the nearest integer, halves towards [+Infinity]. *)
Definition Math_round (a : number) : number :=
  match a with
  | Num x => Num (IZR (Zfloor (x + / 2)))
  | _ => a
  end.

(** [a < b] and [a <= b]: [false] as soon as one side is [NaN]. *)
Definition nltb (a b : number) : bool :=
  match a, b with
  | NaN, _ | _, NaN => false
  | Num x, Num y => Rltb x y
  | NegInf, NegInf | PosInf, _ | _, NegInf => false
  | NegInf, _ | _, PosInf => true
  end.

Definition nleb (a b : number) : bool :=
  match a, b with
  | NaN, _ | _, NaN => false
  | Num x, Num y => Rleb x y
  | NegInf, _ | _, PosInf => true
  | PosInf, _ | _, NegInf => false
  end.

(** [Math.min(a, b)] and [Math.max(a, b)]: [NaN] if either is. *)
Definition min2 (a b : number) : number :=
  match a, b with
  | NaN, _ | _, NaN => NaN
  | _, _ => if nltb b a then b else a
  end.

Definition max2 (a b : number) : number :=
  match a, b with
  | NaN, _ | _, NaN => NaN
  | _, _ => if nltb a b then b else a
  end.

(** [Math.min(...data)], [Infinity] for no argument; [Math.max(...data)],
    [-Infinity] for no argument. *)
Definition Math_min (data : list number) : number := fold_left min2 data PosInf.
Definition Math_max (data : list number) : number := fold_left max2 data NegInf.

Notation "a + b" := (nadd a b) : js_scope.
Notation "a - b" := (nsub a b) : js_scope.
Notation "a * b" := (nmul a b) : js_scope.
Notation "a / b" := (ndiv a b) : js_scope.
Notation "a <? b" := (nltb a b) (at level 70) : js_scope.
Notation "a <=? b" := (nleb a b) (at level 70) : js_scope.

(** An integer-valued JavaScript number. *)
Definition ofZ (z : Z) : number := Num (IZR z).
Definition ofNat (n : nat) : number := Num (INR n).

(** ** Exceptions *)

Inductive exn : Type := TypeError.

Inductive Result (A : Type) : Type :=
| Ok (a : A)
| Throw (e : exn).
Arguments Ok {A} a.
Arguments Throw {A} e.

(** ** The data model *)

(** A histogram bin.  The label is the template string
    [`${Math.round(lo)} - ${Math.round(hi)}`]; the model keeps the two
    rounded numbers it prints. *)
Record Bin : Type := mkBin { bin : number * number; count : nat }.

Record SimulationResult : Type := mkResult {
  probabilityOfSuccess : number;
  expectedCost : number;
  expectedTime : number;
  costDistribution : list Bin;
  timeDistribution : list Bin;
  riskHeatmap : list (number * number * number)
}.

(** ** createHistogram *)

(** [histogram[binIndex]] is an element of the array only when [binIndex] is
    a non-negative integer below its length; [arrayIndex] is that integer. *)
Definition arrayIndex (n : number) : option nat :=
  match n with
  | Num x =>
      let k := Zfloor x in
      if Req_dec_T (IZR k) x then
        if (0 <=? k)%Z then Some (Z.to_nat k) else None
      else None
  | _ => None
  end.

(** [histogram[i].count++] for an index [i] of the array. *)
Fixpoint increment (histogram : list Bin) (i : nat) : option (list Bin) :=
  match histogram, i with
  | [], _ => None
  | b :: rest, O => Some (mkBin (bin b) (S (count b)) :: rest)
  | b :: rest, S i' => option_map (cons b) (increment rest i')
  end.

Section CreateHistogram.
Variable data : list number.
Variable bins : nat.

(** [min], [max], [range] and [binSize] of the source. *)
Definition dataMin : number := Math_min data.
Definition dataMax : number := Math_max data.
Definition range : number := (dataMax - dataMin)%js.
Definition binSize : number := (range / ofNat bins)%js.

(** [Array.from({ length: bins }, (_, i) => ({ bin: ..., count: 0 }))] *)
Definition emptyHistogram : list Bin :=
  map (fun i => mkBin (Math_round (dataMin + ofNat i * binSize),
                       Math_round (dataMin + (ofNat i + Num 1) * binSize))%js
                      0)
      (seq 0 bins).

Definition binIndex (val : number) : number :=
  min2 (Math_floor ((val - dataMin) / binSize)%js) (ofNat bins - Num 1)%js.

(** [data.forEach(val => { ... histogram[binIndex].count++; })] *)
Fixpoint forEach (vals : list number) (histogram : list Bin)
  : Result (list Bin) :=
  match vals with
  | [] => Ok histogram
  | val :: rest =>
      match arrayIndex (binIndex val) with
      | Some i =>
          match increment histogram i with
          | Some histogram' => forEach rest histogram'
          | None => Throw TypeError
          end
      | None => Throw TypeError
      end
  end.

Definition createHistogram : Result (list Bin) := forEach data emptyHistogram.
End CreateHistogram.

(** ** triangularSample and runMonteCarlo *)

(** Lines 58-63 of [triangularSample], as a function of the draw [u] of
    line 57: the fraction [f], the argument of each [Math.sqrt], the value
    of each branch and the value returned. *)
Definition branchFraction (min mode max : number) : number :=
  ((mode - min) / (max - min))%js.

Definition radicandLow (min mode max u : number) : number :=
  (u * (max - min) * (mode - min))%js.

Definition radicandHigh (min mode max u : number) : number :=
  ((Num 1 - u) * (max - min) * (max - mode))%js.

Definition lowerBranch (min mode max u : number) : number :=
  (min + Math_sqrt (radicandLow min mode max u))%js.

Definition upperBranch (min mode max u : number) : number :=
  (max - Math_sqrt (radicandHigh min mode max u))%js.

Definition triangularAt (min mode max u : number) : number :=
  let f := branchFraction min mode max in
  if (u <? f)%js then lowerBranch min mode max u
  else upperBranch min mode max u.

(** The samples and the success count of the loop of [runMonteCarlo]. *)
Record Samples : Type := mkSamples {
  costs : list number;
  times : list number;
  successes : nat
}.

(** The default value of the parameter [iterations]. *)
Definition defaultIterations : Z := 5000.

Definition minMultiplier : number := Num 0.8.
Definition maxMultiplier (riskFactor : number) : number :=
  (Num 1 + riskFactor / Num 50)%js.

Section Engine.
(** [random k] is the value of the [k]-th call of [Math.random()] of the
    process, a real of [[0, 1)]; the state is the number of calls made. *)
Variable random : nat -> R.

Definition Math_random (s : nat) : number * nat := (Num (random s), S s).

Definition triangularSample (min mode max : number) (s : nat)
  : number * nat :=
  let (u, s) := Math_random s in
  (triangularAt min mode max u, s).

Section Run.
Variables baseCost baseTime riskFactor : number.

(** The two calls of [triangularSample] of lines 31 and 32. *)
Definition costSampler : nat -> number * nat :=
  triangularSample (baseCost * minMultiplier) baseCost
                   (baseCost * maxMultiplier riskFactor).

Definition timeSampler : nat -> number * nat :=
  triangularSample (baseTime * minMultiplier) baseTime
                   (baseTime * maxMultiplier riskFactor).

(** The success criterion of line 38. *)
Definition success (costSample timeSample : number) : bool :=
  ((costSample <=? baseCost * Num 1.2)
   && (timeSample <=? baseTime * Num 1.2))%js.

(** One turn of the [for] loop. *)
Definition iteration (acc : Samples) (s : nat) : Samples * nat :=
  let (costSample, s) := costSampler s in
  let (timeSample, s) := timeSampler s in
  (mkSamples (costs acc ++ [costSample]) (times acc ++ [timeSample])
     (if success costSample timeSample
      then S (successes acc) else successes acc),
   s).

(** [n] turns of the loop. *)
Fixpoint loop (n : nat) (acc : Samples) (s : nat) : Samples * nat :=
  match n with
  | O => (acc, s)
  | S n' => let (acc, s) := iteration acc s in loop n' acc s
  end.

(** [for (let i = 0; i < iterations; i++)], from empty arrays. *)
Definition simulate (iterations : Z) (s : nat) : Samples * nat :=
  loop (Z.to_nat iterations) (mkSamples [] [] 0) s.

Definition runMonteCarlo (iterations : Z) (s : nat)
  : Result SimulationResult * nat :=
  let (samples, s) := simulate iterations s in
  let avgCost := (fold_left nadd (costs samples) (Num 0) / ofZ iterations)%js in
  let avgTime := (fold_left nadd (times samples) (Num 0) / ofZ iterations)%js in
  let probability := (ofNat (successes samples) / ofZ iterations)%js in
  (match createHistogram (costs samples) 10 with
   | Throw e => Throw e
   | Ok costDistribution =>
       match createHistogram (times samples) 10 with
       | Throw e => Throw e
       | Ok timeDistribution =>
           Ok (mkResult probability avgCost avgTime
                        costDistribution timeDistribution [])
       end
   end, s).
End Run.
End Engine.

(** ** The sampler and the loop under a rounding arithmetic *)

(** Every arithmetic operation of the engine returns the rounding of its
    exact result.  [rnd x] is the number the exact result [x] is rounded
    to, an infinity when it overflows.  These are the laws the proofs use:
    rounding is monotone, [0] and [1] are numbers of the arithmetic, and a
    rounded result is one.  The round-to-nearest of binary64 satisfies
    them, and so does exact arithmetic, [rnd := Num]. *)
Record Rounding (rnd : R -> number) : Prop := {
  rnd_monotone : forall x y, x <= y -> (rnd x <=? rnd y)%js = true;
  rnd_zero : rnd 0 = Num 0;
  rnd_one : rnd 1 = Num 1;
  rnd_idempotent : forall x y, rnd x = Num y -> rnd y = Num y
}.

Module Rounded.
Section Arithmetic.
Variable rnd : R -> number.

(** The special values are results as they are. *)
Definition rounded (v : number) : number :=
  match v with
  | Num x => rnd x
  | _ => v
  end.

Definition fadd (a b : number) : number := rounded (a + b)%js.
Definition fsub (a b : number) : number := rounded (a - b)%js.
Definition fmul (a b : number) : number := rounded (a * b)%js.
Definition fdiv (a b : number) : number := rounded (a / b)%js.
Definition fsqrt (a : number) : number := rounded (Math_sqrt a).

(** Lines 58-63 of [triangularSample]. *)
Definition branchFraction (min mode max : number) : number :=
  fdiv (fsub mode min) (fsub max min).

Definition lowerBranch (min mode max u : number) : number :=
  fadd min (fsqrt (fmul (fmul u (fsub max min)) (fsub mode min))).

Definition upperBranch (min mode max u : number) : number :=
  fsub max (fsqrt (fmul (fmul (fsub (Num 1) u) (fsub max min))
                        (fsub max mode))).

Definition triangularAt (min mode max u : number) : number :=
  let f := branchFraction min mode max in
  if (u <? f)%js then lowerBranch min mode max u
  else upperBranch min mode max u.

(** The literals [0.8] and [1.2] denote the numbers they round to; [1] and
    [50] are numbers of the arithmetic. *)
Definition minMultiplier : number := rnd 0.8.
Definition successFactor : number := rnd 1.2.

Definition maxMultiplier (riskFactor : number) : number :=
  fadd (Num 1) (fdiv riskFactor (Num 50)).

Section Engine.
Variable random : nat -> R.

Definition Math_random (s : nat) : number * nat := (Num (random s), S s).

Definition triangularSample (min mode max : number) (s : nat)
  : number * nat :=
  let (u, s) := Math_random s in
  (triangularAt min mode max u, s).

Section Run.
Variables baseCost baseTime riskFactor : number.

Definition costSampler : nat -> number * nat :=
  triangularSample (fmul baseCost minMultiplier) baseCost
                   (fmul baseCost (maxMultiplier riskFactor)).

Definition timeSampler : nat -> number * nat :=
  triangularSample (fmul baseTime minMultiplier) baseTime
                   (fmul baseTime (maxMultiplier riskFactor)).

Definition success (costSample timeSample : number) : bool :=
  ((costSample <=? fmul baseCost successFactor)
   && (timeSample <=? fmul baseTime successFactor))%js.

Definition iteration (acc : Samples) (s : nat) : Samples * nat :=
  let (costSample, s) := costSampler s in
  let (timeSample, s) := timeSampler s in
  (mkSamples (costs acc ++ [costSample]) (times acc ++ [timeSample])
     (if success costSample timeSample
      then S (successes acc) else successes acc),
   s).

Fixpoint loop (n : nat) (acc : Samples) (s : nat) : Samples * nat :=
  match n with
  | O => (acc, s)
  | S n' => let (acc, s) := iteration acc s in loop n' acc s
  end.

Definition simulate (iterations : Z) (s : nat) : Samples * nat :=
  loop (Z.to_nat iterations) (mkSamples [] [] 0) s.
End Run.
End Engine.
End Arithmetic.
End Rounded.

(** ** The sampler and the loop in binary64 *)

Module Binary64.
Import PrimFloat.

(** Lines 58-63 of [triangularSample] on floats, as a function of the draw
    [u] of line 57. *)
Definition branchFraction (min mode max : PrimFloat.float) : PrimFloat.float :=
  ((mode - min) / (max - min))%float.

Definition lowerBranch (min mode max u : PrimFloat.float) : PrimFloat.float :=
  (min + PrimFloat.sqrt (u * (max - min) * (mode - min)))%float.

Definition upperBranch (min mode max u : PrimFloat.float) : PrimFloat.float :=
  (max - PrimFloat.sqrt ((1 - u) * (max - min) * (max - mode)))%float.

Definition triangularAt (min mode max u : PrimFloat.float) : PrimFloat.float :=
  let f := branchFraction min mode max in
  if (u <? f)%float then lowerBranch min mode max u
  else upperBranch min mode max u.

Record Samples : Type := mkSamples {
  costs : list PrimFloat.float;
  times : list PrimFloat.float;
  successes : nat
}.

(** The literals [0.8] and [1.2] of the source, as the doubles they denote. *)
Definition minMultiplier : PrimFloat.float := 0x1.999999999999ap-1%float.
Definition successFactor : PrimFloat.float := 0x1.3333333333333p+0%float.

Definition maxMultiplier (riskFactor : PrimFloat.float) : PrimFloat.float :=
  (1 + riskFactor / 50)%float.

(** The minimum of the cost distribution and, when there is no risk, its
    spread [max - min]. *)
Definition costMin (baseCost : PrimFloat.float) : PrimFloat.float :=
  (baseCost * minMultiplier)%float.

Definition costSpread (baseCost : PrimFloat.float) : PrimFloat.float :=
  (baseCost - costMin baseCost)%float.

Section Engine.
(** [random k] is the double the [k]-th call of [Math.random()] returns. *)
Variable random : nat -> PrimFloat.float.

Definition Math_random (s : nat) : PrimFloat.float * nat := (random s, S s).

Definition triangularSample (min mode max : PrimFloat.float) (s : nat) : PrimFloat.float * nat :=
  let (u, s) := Math_random s in
  (triangularAt min mode max u, s).

Section Run.
Variables baseCost baseTime riskFactor : PrimFloat.float.

Definition costSampler : nat -> PrimFloat.float * nat :=
  triangularSample (baseCost * minMultiplier)%float baseCost
                   (baseCost * maxMultiplier riskFactor)%float.

Definition timeSampler : nat -> PrimFloat.float * nat :=
  triangularSample (baseTime * minMultiplier)%float baseTime
                   (baseTime * maxMultiplier riskFactor)%float.

Definition success (costSample timeSample : PrimFloat.float) : bool :=
  ((costSample <=? baseCost * successFactor)%float
   && (timeSample <=? baseTime * successFactor)%float)%bool.

Definition iteration (acc : Samples) (s : nat) : Samples * nat :=
  let (costSample, s) := costSampler s in
  let (timeSample, s) := timeSampler s in
  (mkSamples (costs acc ++ [costSample]) (times acc ++ [timeSample])
     (if success costSample timeSample
      then S (successes acc) else successes acc),
   s).

Fixpoint loop (n : nat) (acc : Samples) (s : nat) : Samples * nat :=
  match n with
  | O => (acc, s)
  | S n' => let (acc, s) := iteration acc s in loop n' acc s
  end.

(** [for (let i = 0; i < iterations; i++)], from empty arrays. *)
Definition simulate (iterations : Z) (s : nat) : Samples * nat :=
  loop (Z.to_nat iterations) (mkSamples [] [] 0) s.
End Run.
End Engine.
End Binary64.

(** ** The caller of the engine: StrategyDashboard *)

(** The fields of [SubGoal] and [Scenario] that the dashboard effect reads.
    A field is [None] when the object loaded at run time lacks it, which
    the code provides for with [|| 0] and [|| []]. *)
Record SubGoal : Type := mkSubGoal { estimatedCost : option number }.

Record Scenario : Type := mkScenario {
  roadmap : option (list SubGoal);
  risk : option number
}.

(** [x || 0] on a number that may be missing: [undefined], [NaN] and [0]
    are falsy and give [0], every other number is kept. *)
Definition orZero (x : option number) : number :=
  match x with
  | None | Some NaN => Num 0
  | Some v => v
  end.

(** [(scenario.roadmap || []).reduce((acc, curr) =>
       acc + (curr.estimatedCost || 0), 0)] *)
Definition totalCost (scenario : Scenario) : number :=
  fold_left (fun acc curr => (acc + orZero (estimatedCost curr))%js)
            (match roadmap scenario with Some steps => steps | None => [] end)
            (Num 0).

Definition totalTime : number := Num 90.

(** The simulation the effect of [StrategyDashboard] stores:
    [runMonteCarlo(totalCost, totalTime, scenario.risk || 0)], with the
    default number of iterations. *)
Definition dashboardSimulation (random : nat -> R) (scenario : Scenario)
  (s : nat) : Result SimulationResult * nat :=
  runMonteCarlo random (totalCost scenario) totalTime
                (orZero (risk scenario)) defaultIterations s.

(** ** The cleaning of the model response in generateStrategies *)

(** A JavaScript string is a sequence of UTF-16 code units. *)
Definition codeUnit : Type := N.
Definition text : Type := list codeUnit.

Definition LF : codeUnit := 10%N.
Definition quote : codeUnit := 34%N.
Definition openBracket : codeUnit := 91%N.
Definition closeBracket : codeUnit := 93%N.
Definition backtick : codeUnit := 96%N.
Definition openBrace : codeUnit := 123%N.
Definition closeBrace : codeUnit := 125%N.

(** The seven code units of the opening fence (three backticks, "json"). *)
Definition fence : text := [96; 96; 96; 106; 115; 111; 110]%N.

(** The code units [String.prototype.trim] removes: white space (TAB, VT,
    FF, the space separators, the byte order mark) and line terminators. *)
Definition isWhiteSpace (c : codeUnit) : bool :=
  existsb (N.eqb c)
    [9; 10; 11; 12; 13; 32; 160; 5760; 8192; 8193; 8194; 8195; 8196; 8197;
     8198; 8199; 8200; 8201; 8202; 8232; 8233; 8239; 8287; 12288; 65279]%N.

Fixpoint trimStart (t : text) : text :=
  match t with
  | c :: rest => if isWhiteSpace c then trimStart rest else t
  | [] => []
  end.

Definition trim (t : text) : text := rev (trimStart (rev (trimStart t))).

Fixpoint startsWith (t prefix : text) {struct prefix} : bool :=
  match prefix, t with
  | [], _ => true
  | p :: prefix', c :: rest => N.eqb c p && startsWith rest prefix'
  | _ :: _, [] => false
  end.

Definition endsWith (t suffix : text) : bool :=
  startsWith (rev t) (rev suffix).

(** [text.replace(/^```json\n?/, [empty])] on a text that starts with the
    fence: the fence goes, and one line feed after it. *)
Definition removeOpeningFence (t : text) : text :=
  match skipn 7 t with
  | c :: rest => if N.eqb c LF then rest else c :: rest
  | [] => []
  end.

(** [text.replace(/\n?```$/, [empty])]: the leftmost match that reaches the
    end of the text, three backticks with the line feed before them if there
    is one. *)
Definition removeClosingFence (t : text) : text :=
  match rev t with
  | 96%N :: 96%N :: 96%N :: 10%N :: rest => rev rest
  | 96%N :: 96%N :: 96%N :: rest => rev rest
  | _ => t
  end.

(** [(text.match(/c/g) || []).length] *)
Definition occurrences (c : codeUnit) (t : text) : nat :=
  count_occ N.eq_dec t c.

(** Lines 83 to 105: the repair of a text that looks truncated. *)
Definition repair (t : text) : text :=
  if negb (endsWith t [closeBracket]) && negb (endsWith t [closeBrace]) then
    let openBraces :=
      (Z.of_nat (occurrences openBrace t)
       - Z.of_nat (occurrences closeBrace t))%Z in
    let openBrackets :=
      (Z.of_nat (occurrences openBracket t)
       - Z.of_nat (occurrences closeBracket t))%Z in
    let t :=
      if existsb (N.eqb quote) t && Nat.odd (occurrences quote t)
      then t ++ [quote] else t in
    let t := t ++ repeat closeBrace (Z.to_nat openBraces) in
    t ++ repeat closeBracket (Z.to_nat openBrackets)
  else t.

(** Lines 75 to 105: the text handed to [JSON.parse], from [response.text]
    ([None] when it is [undefined]). *)
Definition prepareResponse (responseText : option text) : text :=
  let t := match responseText with Some t => t | None => [] end in
  let t := trim t in
  let t :=
    if startsWith t fence
    then removeClosingFence (removeOpeningFence t) else t in
  repair t.

(** ** Auxiliary definitions for the statements *)

(** The cost estimate of a step as the total counts it: [0] when it is
    missing or [NaN]. *)
Definition countedCost (step : SubGoal) : R :=
  match estimatedCost step with
  | Some (Num x) => x
  | _ => 0
  end.

(** A step whose estimate is a number other than [NaN]. *)
Definition hasEstimate (step : SubGoal) : bool :=
  match estimatedCost step with
  | None | Some NaN => false
  | Some _ => true
  end.

(** The steps the reduction runs over. *)
Definition stepsOf (scenario : Scenario) : list SubGoal :=
  match roadmap scenario with Some steps => steps | None => [] end.

(** A JavaScript string of code units below 256, from its characters. *)
Definition codeUnits (str : String.string) : text :=
  map Ascii.N_of_ascii (String.list_ascii_of_string str).
Arguments codeUnits str%_string_scope.

(** The cost and the time sample computed from the [k]-th draw. *)
Definition costOf (random : nat -> R) (baseCost riskFactor : number) (k : nat)
  : number :=
  triangularAt (baseCost * minMultiplier) baseCost
               (baseCost * maxMultiplier riskFactor) (Num (random k)).

Definition timeOf (random : nat -> R) (baseTime riskFactor : number) (k : nat)
  : number :=
  triangularAt (baseTime * minMultiplier) baseTime
               (baseTime * maxMultiplier riskFactor) (Num (random k)).

(** Turn [i] of a loop started after [s] draws uses draws [s + 2 i] (cost)
    and [s + 2 i + 1] (time). *)
Definition succeeds (random : nat -> R) (baseCost baseTime riskFactor : number)
  (s i : nat) : bool :=
  success baseCost baseTime
    (costOf random baseCost riskFactor (s + 2 * i))
    (timeOf random baseTime riskFactor (s + 2 * i + 1)).

(** The sum of the counts of a histogram. *)
Definition totalCount (histogram : list Bin) : nat :=
  list_sum (map count histogram).

Definition finite (a : number) : Prop := exists x, a = Num x.

(** [a <= b] holds in the code. *)
Definition nle (a b : number) : Prop := (a <=? b)%js = true.

(** The minimum of the cost distribution and, when there is no risk, its
    spread [max - min], which is [mode - min] too. *)
Definition costMin (rnd : R -> number) (baseCost : number) : number :=
  Rounded.fmul rnd baseCost (Rounded.minMultiplier rnd).

Definition costSpread (rnd : R -> number) (baseCost : number) : number :=
  Rounded.fsub rnd baseCost (costMin rnd baseCost).

(** A rounding with a coarse grid: the nearest multiple of [1/1024], the
    arithmetic of a fixed-point number with ten fractional bits. *)
Definition fixedPoint (x : R) : number :=
  Num (IZR (Zfloor (x * 1024 + / 2)) / 1024).

(** A call that fails before it samples: an exception, and no draw made. *)
Definition failsBeforeSampling {A : Type} (run : nat -> Result A * nat)
  (s : nat) : Prop :=
  exists e, run s = (Throw e, s).

(** The result of a call with [iterations = 0]: three [NaN] and twice ten
    empty bins labelled [NaN - NaN]. *)
Definition resultOfNoIteration : SimulationResult :=
  mkResult NaN NaN NaN
           (repeat (mkBin (NaN, NaN) 0) 10) (repeat (mkBin (NaN, NaN) 0) 10) [].

(** A sequence of draws for the scenario [baseCost = 1000],
    [baseTime = 30], [riskFactor = 50], [iterations = 10000], long enough for
    two runs: the first run (draws 0 to 19999) gets [0] twice and then
    [0.7]; the second (draws 20000 to 39999) gets [0] four times and then
    [0.7]. *)
Definition scenarioDraws (k : nat) : R :=
  let z := Z.of_nat k in
  if (z <? 2)%Z then 0
  else if (z <? 20000)%Z then 0.7
  else if (z <? 20004)%Z then 0
  else 0.7.

(** The value of a call that returned. *)
Definition valueOf {A : Type} (default : A) (r : Result A) : A :=
  match r with Ok a => a | Throw _ => default end.

(** * Properties *)

(** ** Arithmetic of finite numbers *)

Lemma Rltb_true x y : x < y -> Rltb x y = true.
Proof. intros H. unfold Rltb. destruct (Rlt_dec x y); [reflexivity | lra]. Qed.

Lemma Rltb_false x y : y <= x -> Rltb x y = false.
Proof. intros H. unfold Rltb. destruct (Rlt_dec x y); [lra | reflexivity]. Qed.

Lemma Rleb_true x y : x <= y -> Rleb x y = true.
Proof. intros H. unfold Rleb. destruct (Rle_dec x y); [reflexivity | lra]. Qed.

Lemma Rleb_false x y : y < x -> Rleb x y = false.
Proof. intros H. unfold Rleb. destruct (Rle_dec x y); [lra | reflexivity]. Qed.

Lemma Rsign_pos x : 0 < x -> Rsign x = Pos.
Proof.
  intros H. unfold Rsign.
  destruct (total_order_T x 0) as [[Hlt | Heq] | Hgt]; [lra | lra | reflexivity].
Qed.

Lemma Rsign_neg x : x < 0 -> Rsign x = Neg.
Proof.
  intros H. unfold Rsign.
  destruct (total_order_T x 0) as [[Hlt | Heq] | Hgt]; [reflexivity | lra | lra].
Qed.

Lemma Rsign_zero x : x = 0 -> Rsign x = Zero.
Proof.
  intros H. unfold Rsign.
  destruct (total_order_T x 0) as [[Hlt | Heq] | Hgt]; [lra | reflexivity | lra].
Qed.

Lemma ndiv_Num x y : y <> 0 -> (Num x / Num y)%js = Num (x / y).
Proof.
  intros H. unfold ndiv, Rsign.
  destruct (total_order_T y 0) as [[Hlt | Heq] | Hgt]; [reflexivity | lra | reflexivity].
Qed.

Lemma ndiv_zero_zero : (Num 0 / Num 0)%js = NaN.
Proof. unfold ndiv. rewrite (Rsign_zero 0) by reflexivity. reflexivity. Qed.

Lemma Math_sqrt_Num x : 0 <= x -> Math_sqrt (Num x) = Num (sqrt x).
Proof. intros H. unfold Math_sqrt. rewrite Rltb_false by exact H. reflexivity. Qed.

(** A product of three non-negative factors, the shape of both radicands. *)
Ltac radicand_nonneg :=
  apply Rmult_le_pos; [apply Rmult_le_pos |]; lra.

Lemma sqrt_le_of_square r y : 0 <= r -> 0 <= y -> r <= y * y -> sqrt r <= y.
Proof.
  intros Hr Hy H. rewrite <- (sqrt_square y Hy).
  apply sqrt_le_1; [exact Hr | nra | exact H].
Qed.

(** ** The triangular sampler on finite parameters *)

Section Triangular.
Variables a c b u : R.
Hypothesis Hac : a <= c.
Hypothesis Hcb : c <= b.
Hypothesis Hab : a < b.

Lemma branchFraction_Num :
  branchFraction (Num a) (Num c) (Num b) = Num ((c - a) / (b - a)).
Proof. unfold branchFraction. simpl. apply ndiv_Num. lra. Qed.

Lemma fraction_lt : u < (c - a) / (b - a) <-> u * (b - a) < c - a.
Proof.
  split; intros H.
  - apply (Rmult_lt_compat_r (b - a)) in H; [| lra].
    unfold Rdiv in H. rewrite Rmult_assoc, Rinv_l, Rmult_1_r in H by lra.
    exact H.
  - apply (Rmult_lt_reg_r (b - a)); [lra |].
    unfold Rdiv. rewrite Rmult_assoc, Rinv_l, Rmult_1_r by lra. exact H.
Qed.

Lemma triangularAt_low :
  0 <= u -> u < (c - a) / (b - a) ->
  triangularAt (Num a) (Num c) (Num b) (Num u)
  = Num (a + sqrt (u * (b - a) * (c - a))).
Proof.
  intros Hu Hf. unfold triangularAt. rewrite branchFraction_Num. cbn [nltb].
  rewrite Rltb_true by exact Hf.
  unfold lowerBranch, radicandLow. cbn [nsub nadd nopp nmul].
  rewrite Math_sqrt_Num; [reflexivity |].
  radicand_nonneg.
Qed.

Lemma triangularAt_high :
  u <= 1 -> (c - a) / (b - a) <= u ->
  triangularAt (Num a) (Num c) (Num b) (Num u)
  = Num (b - sqrt ((1 - u) * (b - a) * (b - c))).
Proof.
  intros Hu Hf. unfold triangularAt. rewrite branchFraction_Num. cbn [nltb].
  rewrite Rltb_false by exact Hf.
  unfold upperBranch, radicandHigh. cbn [nsub nadd nopp nmul].
  rewrite Math_sqrt_Num; [reflexivity |].
  radicand_nonneg.
Qed.

(** In the first branch the value lies in [[a, c]]. *)
Lemma low_value_bounds :
  0 <= u -> u < (c - a) / (b - a) ->
  a <= a + sqrt (u * (b - a) * (c - a)) <= c.
Proof.
  intros Hu Hf. apply fraction_lt in Hf.
  assert (Hr : 0 <= u * (b - a) * (c - a))
    by (radicand_nonneg).
  split.
  - pose proof (sqrt_pos (u * (b - a) * (c - a))). lra.
  - assert (sqrt (u * (b - a) * (c - a)) <= c - a); [| lra].
    apply sqrt_le_of_square; [exact Hr | lra | nra].
Qed.

(** In the second branch the value lies in [[c, b]]. *)
Lemma high_value_bounds :
  u <= 1 -> (c - a) / (b - a) <= u ->
  c <= b - sqrt ((1 - u) * (b - a) * (b - c)) <= b.
Proof.
  intros Hu Hf.
  assert (Hf' : c - a <= u * (b - a)).
  { destruct (Rle_lt_dec (c - a) (u * (b - a))) as [H | H]; [exact H |].
    apply fraction_lt in H. lra. }
  assert (Hr : 0 <= (1 - u) * (b - a) * (b - c))
    by (radicand_nonneg).
  split.
  - assert (sqrt ((1 - u) * (b - a) * (b - c)) <= b - c); [| lra].
    apply sqrt_le_of_square; [exact Hr | lra | nra].
  - pose proof (sqrt_pos ((1 - u) * (b - a) * (b - c))). lra.
Qed.
End Triangular.

Lemma triangularAt_bounds (a c b u : R) :
  a <= c <= b -> a < b -> 0 <= u < 1 ->
  exists x, triangularAt (Num a) (Num c) (Num b) (Num u) = Num x /\ a <= x <= b.
Proof.
  intros [Hac Hcb] Hab [Hu0 Hu1].
  destruct (Rlt_le_dec u ((c - a) / (b - a))) as [Hf | Hf].
  - eexists. split; [apply triangularAt_low; assumption |].
    pose proof (low_value_bounds a c b u Hac Hab Hu0 Hf). lra.
  - eexists. split; [apply triangularAt_high; solve [assumption | lra] |].
    assert (Hu : u <= 1) by lra.
    pose proof (high_value_bounds a c b u Hcb Hab Hu Hf). lra.
Qed.

(** In exact arithmetic, for [min <= mode <= max] with [min < max] and
    whatever draw of [[0, 1)] the generator returns, [triangularSample]
    gives a finite value of the closed interval [[min, max]].  Of the two
    bounds, rounding keeps one in each branch, see the sampler under
    rounding below. *)
Lemma triangularSample_in_range (random : nat -> R) (min mode max : R) (s : nat) :
  (forall k, 0 <= random k < 1) ->
  min <= mode <= max -> min < max ->
  exists x,
    fst (triangularSample random (Num min) (Num mode) (Num max) s) = Num x
    /\ min <= x <= max.
Proof.
  intros Hrandom Hmode Hlt. unfold triangularSample, Math_random. cbn [fst].
  apply triangularAt_bounds; auto.
Qed.

Lemma triangularAt_degenerate (m u : R) :
  triangularAt (Num m) (Num m) (Num m) (Num u) = Num m.
Proof.
  unfold triangularAt, branchFraction. cbn [nsub nadd nopp ndiv].
  rewrite (Rsign_zero (m + - m)) by lra. cbn [inf_of nltb].
  unfold upperBranch, radicandHigh. cbn [nsub nadd nopp nmul].
  replace ((1 + - u) * (m + - m) * (m + - m)) with 0 by ring.
  rewrite Math_sqrt_Num by lra. rewrite sqrt_0. cbn [nopp nadd].
  f_equal. ring.
Qed.

(** C6: in the zero-width case [min = mode = max] the sampler returns that
    value for every draw [u] of [[0, 1)]: [f] is [0 / 0 = NaN], the test
    [u < f] is false and the second branch gives [max - sqrt 0]. *)
Theorem triangularSample_degenerate (random : nat -> R) (m : R) (s : nat) :
  (forall k, 0 <= random k < 1) ->
  fst (triangularSample random (Num m) (Num m) (Num m) s) = Num m.
Proof.
  intros _. unfold triangularSample, Math_random. cbn [fst].
  apply triangularAt_degenerate.
Qed.

Lemma triangularSample_degenerate_witness :
  fst (triangularSample (fun _ => / 2) (Num 5) (Num 5) (Num 5) 0%nat) = Num 5.
Proof.
  apply (triangularSample_degenerate (fun _ => / 2) 5 0%nat). intros; lra.
Defined.



Section Monotone.
Variables a c b : R.
Hypothesis Hac : a <= c.
Hypothesis Hcb : c <= b.
Hypothesis Hab : a < b.

Lemma lowerBranch_meets_mode :
  lowerBranch (Num a) (Num c) (Num b) (branchFraction (Num a) (Num c) (Num b))
  = Num c.
Proof.
  rewrite branchFraction_Num by exact Hab.
  unfold lowerBranch, radicandLow. cbn [nsub nadd nopp nmul].
  replace ((c - a) / (b - a) * (b + - a) * (c + - a))
    with ((c - a) * (c - a)) by (field; lra).
  rewrite Math_sqrt_Num by nra. rewrite sqrt_square by lra.
  cbn [nadd]. f_equal. ring.
Qed.

Lemma upperBranch_meets_mode :
  upperBranch (Num a) (Num c) (Num b) (branchFraction (Num a) (Num c) (Num b))
  = Num c.
Proof.
  rewrite branchFraction_Num by exact Hab.
  unfold upperBranch, radicandHigh. cbn [nsub nadd nopp nmul].
  replace ((1 + - ((c - a) / (b - a))) * (b + - a) * (b + - c))
    with ((b - c) * (b - c)) by (field; lra).
  rewrite Math_sqrt_Num by nra. rewrite sqrt_square by lra.
  cbn [nadd nopp]. f_equal. ring.
Qed.

Lemma triangularAt_monotone (u1 u2 : R) :
  0 <= u1 -> u1 <= u2 -> u2 < 1 ->
  exists x1 x2,
    triangularAt (Num a) (Num c) (Num b) (Num u1) = Num x1
    /\ triangularAt (Num a) (Num c) (Num b) (Num u2) = Num x2
    /\ x1 <= x2.
Proof.
  intros H1 H12 H2.
  destruct (Rlt_le_dec u2 ((c - a) / (b - a))) as [Hf2 | Hf2].
  - (* both draws in the first branch *)
    assert (Hf1 : u1 < (c - a) / (b - a)) by lra.
    do 2 eexists. split; [apply triangularAt_low; solve [assumption | lra] |].
    split; [apply triangularAt_low; solve [assumption | lra] |].
    apply Rplus_le_compat_l, sqrt_le_1.
    + radicand_nonneg.
    + radicand_nonneg.
    + apply Rmult_le_compat_r; [lra |]. apply Rmult_le_compat_r; lra.
  - destruct (Rlt_le_dec u1 ((c - a) / (b - a))) as [Hf1 | Hf1].
    + (* the first branch for u1, the second for u2: the mode separates *)
      do 2 eexists. split; [apply triangularAt_low; solve [assumption | lra] |].
      split; [apply triangularAt_high; solve [assumption | lra] |].
      pose proof (low_value_bounds a c b u1 Hac Hab H1 Hf1).
      assert (Hu2 : u2 <= 1) by lra.
      pose proof (high_value_bounds a c b u2 Hcb Hab Hu2 Hf2). lra.
    + (* both draws in the second branch *)
      do 2 eexists. split; [apply triangularAt_high; solve [assumption | lra] |].
      split; [apply triangularAt_high; solve [assumption | lra] |].
      apply Rplus_le_compat_l, Ropp_le_contravar, sqrt_le_1.
      * radicand_nonneg.
      * radicand_nonneg.
      * apply Rmult_le_compat_r; [lra |]. apply Rmult_le_compat_r; lra.
Qed.
End Monotone.

(** In exact arithmetic, for fixed [min <= mode <= max] with [min < max],
    the value of the sampler is a non-decreasing function of the draw on
    [[0, 1)], and the two branch formulas both give [mode] at
    [u = (mode - min) / (max - min)].  Rounding keeps the order on each
    side of the switch only, see the sampler under rounding below. *)
Lemma triangularAt_nondecreasing (min mode max u1 u2 : R) :
  min <= mode <= max -> min < max ->
  0 <= u1 -> u1 <= u2 -> u2 < 1 ->
  (triangularAt (Num min) (Num mode) (Num max) (Num u1)
   <=? triangularAt (Num min) (Num mode) (Num max) (Num u2))%js = true
  /\ lowerBranch (Num min) (Num mode) (Num max)
       (branchFraction (Num min) (Num mode) (Num max)) = Num mode
  /\ upperBranch (Num min) (Num mode) (Num max)
       (branchFraction (Num min) (Num mode) (Num max)) = Num mode.
Proof.
  intros [Hac Hcb] Hab H1 H12 H2.
  split; [| split].
  - destruct (triangularAt_monotone min mode max Hac Hcb Hab u1 u2 H1 H12 H2)
      as (x1 & x2 & E1 & E2 & Hle).
    rewrite E1, E2. cbn [nleb]. apply Rleb_true. exact Hle.
  - apply lowerBranch_meets_mode; assumption.
  - apply upperBranch_meets_mode; assumption.
Qed.

(** ** The loop of runMonteCarlo *)

Section Loop.
Variable random : nat -> R.
Variables baseCost baseTime riskFactor : number.

Lemma costSampler_eq s :
  costSampler random baseCost riskFactor s
  = (costOf random baseCost riskFactor s, S s).
Proof. reflexivity. Qed.

Lemma timeSampler_eq s :
  timeSampler random baseTime riskFactor s
  = (timeOf random baseTime riskFactor s, S s).
Proof. reflexivity. Qed.

Lemma iteration_eq acc s :
  iteration random baseCost baseTime riskFactor acc s
  = (mkSamples
       (costs acc ++ [costOf random baseCost riskFactor s])
       (times acc ++ [timeOf random baseTime riskFactor (S s)])
       (if succeeds random baseCost baseTime riskFactor s 0
        then S (successes acc) else successes acc),
     S (S s)).
Proof.
  unfold iteration. rewrite costSampler_eq, timeSampler_eq.
  unfold succeeds. replace (s + 2 * 0)%nat with s by lia.
  replace (s + 1)%nat with (S s) by lia. reflexivity.
Qed.

Lemma succeeds_shift s i :
  succeeds random baseCost baseTime riskFactor (S (S s)) i
  = succeeds random baseCost baseTime riskFactor s (S i).
Proof.
  unfold succeeds. replace (S (S s) + 2 * i)%nat with (s + 2 * S i)%nat by lia.
  reflexivity.
Qed.

(** The loop in closed form. *)
Lemma loop_eq n : forall acc s,
  loop random baseCost baseTime riskFactor n acc s
  = (mkSamples
       (costs acc
        ++ map (fun i => costOf random baseCost riskFactor (s + 2 * i))
               (seq 0 n))
       (times acc
        ++ map (fun i => timeOf random baseTime riskFactor (s + 2 * i + 1))
               (seq 0 n))
       (successes acc
        + length (filter (succeeds random baseCost baseTime riskFactor s)
                         (seq 0 n))),
     (s + 2 * n)%nat).
Proof.
  induction n as [| n IH]; intros acc s.
  - cbn [loop seq map filter length]. rewrite !app_nil_r, !Nat.add_0_r.
    destruct acc; reflexivity.
  - cbn [loop]. rewrite iteration_eq, IH. cbn [costs times successes].
    rewrite <- !app_assoc. cbn [app seq map filter].
    rewrite <- !seq_shift, !map_map.
    f_equal; [| lia]. f_equal.
    + f_equal. f_equal; [f_equal; lia |].
      apply map_ext. intros i. f_equal. lia.
    + f_equal. f_equal; [f_equal; lia |].
      apply map_ext. intros i. f_equal. lia.
    + assert (Hfilter :
        length (filter (succeeds random baseCost baseTime riskFactor (S (S s)))
                       (seq 0 n))
        = length (filter (succeeds random baseCost baseTime riskFactor s)
                         (map S (seq 0 n)))).
      { generalize (seq 0 n) as l. induction l as [| i l IHl]; [reflexivity |].
        cbn [map filter]. rewrite succeeds_shift.
        destruct (succeeds random baseCost baseTime riskFactor s (S i));
          cbn [length]; rewrite IHl; reflexivity. }
      rewrite Hfilter.
      destruct (succeeds random baseCost baseTime riskFactor s 0);
        cbn [length]; lia.
Qed.

Lemma simulate_eq iterations s :
  simulate random baseCost baseTime riskFactor iterations s
  = (mkSamples
       (map (fun i => costOf random baseCost riskFactor (s + 2 * i))
            (seq 0 (Z.to_nat iterations)))
       (map (fun i => timeOf random baseTime riskFactor (s + 2 * i + 1))
            (seq 0 (Z.to_nat iterations)))
       (length (filter (succeeds random baseCost baseTime riskFactor s)
                       (seq 0 (Z.to_nat iterations)))),
     (s + 2 * Z.to_nat iterations)%nat).
Proof. unfold simulate. rewrite loop_eq. reflexivity. Qed.

Lemma successes_le iterations s :
  (successes (fst (simulate random baseCost baseTime riskFactor iterations s))
   <= Z.to_nat iterations)%nat.
Proof.
  rewrite simulate_eq. cbn [fst successes].
  etransitivity; [apply filter_length_le |]. rewrite length_seq. reflexivity.
Qed.
End Loop.

(** ** No risk: the cost draws stay below the baseline *)

Lemma maxMultiplier_zero : maxMultiplier (Num 0) = Num 1.
Proof.
  unfold maxMultiplier. rewrite ndiv_Num by lra. cbn [nadd]. f_equal. lra.
Qed.

Lemma costOf_no_risk (random : nat -> R) (baseCost : R) (k : nat) :
  0 <= random k < 1 -> 0 < baseCost ->
  exists x, costOf random (Num baseCost) (Num 0) k = Num x
            /\ baseCost * 0.8 <= x <= baseCost.
Proof.
  intros Hu Hb. unfold costOf. rewrite maxMultiplier_zero.
  unfold minMultiplier. cbn [nmul].
  destruct (triangularAt_bounds (baseCost * 0.8) baseCost (baseCost * 1)
              (random k)) as (x & E & Hx); try lra.
  exists x. split; [exact E | lra].
Qed.

(** In exact arithmetic, with [riskFactor = 0] and a positive [baseCost],
    every cost sample the loop collects is a finite value at most
    [baseCost].  Under rounding the bound rests on two roundings, see the
    sampler under rounding below. *)
Lemma cost_draws_no_risk (random : nat -> R) (baseCost : R)
  (baseTime : number) (iterations : Z) (s : nat) :
  (forall k, 0 <= random k < 1) -> 0 < baseCost ->
  maxMultiplier (Num 0) = Num 1
  /\ (Num baseCost * maxMultiplier (Num 0))%js = Num baseCost
  /\ Forall (fun costSample => exists x, costSample = Num x /\ x <= baseCost)
       (costs (fst (simulate random (Num baseCost) baseTime (Num 0)
                      iterations s))).
Proof.
  intros Hrandom Hb. split; [apply maxMultiplier_zero |]. split.
  - rewrite maxMultiplier_zero. cbn [nmul]. f_equal. lra.
  - rewrite simulate_eq. cbn [fst costs]. apply Forall_forall.
    intros c Hin. apply in_map_iff in Hin. destruct Hin as (i & <- & _).
    destruct (costOf_no_risk random baseCost (s + 2 * i) (Hrandom _) Hb)
      as (x & E & Hx).
    exists x. split; [exact E | lra].
Qed.

(** ** The success probability *)

Lemma probability_bounds (successes : nat) (iterations : Z) :
  (successes <= Z.to_nat iterations)%nat -> (1 <= iterations)%Z ->
  exists p, (ofNat successes / ofZ iterations)%js = Num p /\ 0 <= p <= 1.
Proof.
  intros Hle Hpos. unfold ofNat, ofZ.
  assert (Hi : 1 <= IZR iterations) by (apply IZR_le; exact Hpos).
  assert (Hs : 0 <= INR successes) by apply pos_INR.
  assert (Hsi : INR successes <= IZR iterations).
  { rewrite INR_IZR_INZ. apply IZR_le. lia. }
  rewrite ndiv_Num by lra. eexists. split; [reflexivity |].
  split.
  - apply Rmult_le_pos; [exact Hs |]. apply Rlt_le, Rinv_0_lt_compat. lra.
  - apply (Rmult_le_reg_r (IZR iterations)); [lra |].
    unfold Rdiv. rewrite Rmult_assoc, Rinv_l by lra. lra.
Qed.

Lemma runMonteCarlo_probability (random : nat -> R)
  (baseCost baseTime riskFactor : number) (iterations : Z) (s : nat)
  (r : SimulationResult) :
  fst (runMonteCarlo random baseCost baseTime riskFactor iterations s) = Ok r ->
  probabilityOfSuccess r
  = (ofNat (successes (fst (simulate random baseCost baseTime riskFactor
                              iterations s))) / ofZ iterations)%js.
Proof.
  unfold runMonteCarlo.
  destruct (simulate random baseCost baseTime riskFactor iterations s)
    as [samples s']. cbn [fst].
  destruct (createHistogram (costs samples) 10); [| discriminate].
  destruct (createHistogram (times samples) 10); [| discriminate].
  intros [= <-]. reflexivity.
Qed.

(** ** Minimum and maximum of finite samples *)

Lemma min2_Num a b : min2 (Num a) (Num b) = Num (Rmin a b).
Proof.
  unfold min2, Rmin. cbn [nltb]. unfold Rltb.
  destruct (Rlt_dec b a), (Rle_dec a b); try reflexivity; f_equal; lra.
Qed.

Lemma max2_Num a b : max2 (Num a) (Num b) = Num (Rmax a b).
Proof.
  unfold max2, Rmax. cbn [nltb]. unfold Rltb.
  destruct (Rlt_dec a b), (Rle_dec a b); try reflexivity; f_equal; lra.
Qed.

Lemma fold_min2_Num xs : forall a,
  fold_left min2 (map Num xs) (Num a) = Num (fold_left Rmin xs a).
Proof.
  induction xs as [| x xs IH]; intros a; [reflexivity |].
  cbn [map fold_left]. rewrite min2_Num. apply IH.
Qed.

Lemma fold_max2_Num xs : forall a,
  fold_left max2 (map Num xs) (Num a) = Num (fold_left Rmax xs a).
Proof.
  induction xs as [| x xs IH]; intros a; [reflexivity |].
  cbn [map fold_left]. rewrite max2_Num. apply IH.
Qed.

Lemma Math_min_Num x xs :
  Math_min (map Num (x :: xs)) = Num (fold_left Rmin xs x).
Proof.
  unfold Math_min. cbn [map fold_left]. cbn [min2 nltb]. apply fold_min2_Num.
Qed.

Lemma Math_max_Num x xs :
  Math_max (map Num (x :: xs)) = Num (fold_left Rmax xs x).
Proof.
  unfold Math_max. cbn [map fold_left]. cbn [max2 nltb]. apply fold_max2_Num.
Qed.

Lemma fold_Rmin_le xs : forall a,
  fold_left Rmin xs a <= a /\ Forall (fun x => fold_left Rmin xs a <= x) xs.
Proof.
  induction xs as [| x xs IH]; intros a; cbn [fold_left].
  - split; [lra | constructor].
  - destruct (IH (Rmin a x)) as [Ha Hxs].
    pose proof (Rmin_l a x). pose proof (Rmin_r a x).
    split; [lra |]. constructor; [lra | exact Hxs].
Qed.

Lemma fold_Rmax_ge xs : forall a,
  a <= fold_left Rmax xs a /\ Forall (fun x => x <= fold_left Rmax xs a) xs.
Proof.
  induction xs as [| x xs IH]; intros a; cbn [fold_left].
  - split; [lra | constructor].
  - destruct (IH (Rmax a x)) as [Ha Hxs].
    pose proof (Rmax_l a x). pose proof (Rmax_r a x).
    split; [lra |]. constructor; [lra | exact Hxs].
Qed.

Lemma finite_list data :
  Forall finite data -> exists xs, data = map Num xs.
Proof.
  induction 1 as [| a data [x ->] _ [xs ->]].
  - exists []. reflexivity.
  - exists (x :: xs). reflexivity.
Qed.

(** Finite samples, not all equal: [min] and [max] are finite bounds of the
    data and [min < max]. *)
Lemma data_bounds xs x y :
  In x xs -> In y xs -> x < y ->
  exists m M,
    dataMin (map Num xs) = Num m /\ dataMax (map Num xs) = Num M
    /\ m < M /\ Forall (fun v => m <= v <= M) xs.
Proof.
  intros Hx Hy Hxy. destruct xs as [| x0 xs]; [destruct Hx |].
  unfold dataMin, dataMax. rewrite Math_min_Num, Math_max_Num.
  destruct (fold_Rmin_le xs x0) as [Hm0 Hm].
  destruct (fold_Rmax_ge xs x0) as [HM0 HM].
  assert (Hall : Forall (fun v => fold_left Rmin xs x0 <= v
                                  <= fold_left Rmax xs x0) (x0 :: xs)).
  { constructor; [lra |]. rewrite Forall_forall in *. intros v Hv.
    split; [apply Hm | apply HM]; exact Hv. }
  do 2 eexists. split; [reflexivity |]. split; [reflexivity |].
  split; [| exact Hall].
  rewrite Forall_forall in Hall.
  pose proof (Hall x Hx). pose proof (Hall y Hy). lra.
Qed.

(** ** The histogram over samples of positive range *)

Lemma arrayIndex_ofZ (j : Z) :
  (0 <= j)%Z -> arrayIndex (Num (IZR j)) = Some (Z.to_nat j).
Proof.
  intros Hj. unfold arrayIndex. rewrite ZfloorZ.
  destruct (Req_dec_T (IZR j) (IZR j)) as [_ | Hne]; [| contradiction].
  destruct (Z.leb_spec 0 j); [reflexivity | lia].
Qed.

Lemma binIndex_valid data bins m M v :
  dataMin data = Num m -> dataMax data = Num M -> m < M ->
  (1 <= bins)%nat -> m <= v ->
  exists i, arrayIndex (binIndex data bins (Num v)) = Some i /\ (i < bins)%nat.
Proof.
  intros Hmin Hmax HmM Hbins Hv.
  assert (Hb : 1 <= INR bins) by (apply (le_INR 1); exact Hbins).
  assert (Hsize : 0 < (M + - m) / INR bins).
  { apply Rmult_lt_0_compat; [lra |]. apply Rinv_0_lt_compat. lra. }
  unfold binIndex, binSize, range, ofNat. rewrite Hmin, Hmax.
  cbn [nsub nadd nopp]. rewrite (ndiv_Num (M + - m)) by lra.
  rewrite ndiv_Num by lra. cbn [Math_floor]. rewrite min2_Num.
  set (q := (v + - m) / ((M + - m) / INR bins)).
  assert (Hq : 0 <= q).
  { apply Rmult_le_pos; [lra |]. apply Rlt_le, Rinv_0_lt_compat. exact Hsize. }
  assert (Hk : (0 <= Zfloor q)%Z) by (apply Zfloor_lub; exact Hq).
  assert (Hlast : INR bins + - (1) = IZR (Z.of_nat bins - 1))
    by (rewrite minus_IZR, <- INR_IZR_INZ; lra).
  unfold Rmin. destruct (Rle_dec (IZR (Zfloor q)) (INR bins + - (1))) as [Hle | Hgt].
  - exists (Z.to_nat (Zfloor q)). split; [apply arrayIndex_ofZ; exact Hk |].
    rewrite Hlast in Hle. apply le_IZR in Hle. lia.
  - rewrite Hlast. exists (Z.to_nat (Z.of_nat bins - 1)).
    split; [apply arrayIndex_ofZ; lia | lia].
Qed.

Lemma increment_ok histogram : forall i,
  (i < length histogram)%nat ->
  exists histogram',
    increment histogram i = Some histogram'
    /\ length histogram' = length histogram
    /\ totalCount histogram' = S (totalCount histogram).
Proof.
  unfold totalCount.
  induction histogram as [| b rest IH]; intros i Hi; cbn [length] in Hi; [lia |].
  destruct i as [| i]; cbn [increment].
  - eexists. split; [reflexivity |]. split; reflexivity.
  - destruct (IH i) as (rest' & E & Hlen & Hcount); [lia |].
    rewrite E. exists (b :: rest'). split; [reflexivity |].
    unfold list_sum in *. cbn [length map fold_right].
    rewrite Hlen, Hcount. split; lia.
Qed.

Lemma forEach_ok data bins vals : forall histogram,
  Forall (fun val => exists i, arrayIndex (binIndex data bins val) = Some i
                               /\ (i < bins)%nat) vals ->
  length histogram = bins ->
  exists histogram',
    forEach data bins vals histogram = Ok histogram'
    /\ length histogram' = bins
    /\ totalCount histogram' = (totalCount histogram + length vals)%nat.
Proof.
  induction vals as [| val rest IH]; intros histogram Hvals Hlen.
  - exists histogram. cbn [forEach length]. repeat split; [exact Hlen | lia].
  - inversion Hvals as [| ? ? (i & Ei & Hi) Hrest]; subst.
    cbn [forEach]. rewrite Ei.
    destruct (increment_ok histogram i) as (h1 & E1 & Hlen1 & Hcount1); [lia |].
    rewrite E1.
    destruct (IH h1 Hrest) as (h2 & E2 & Hlen2 & Hcount2); [lia |].
    exists h2. split; [exact E2 |]. split; [exact Hlen2 |].
    rewrite Hcount2, Hcount1. cbn [length]. lia.
Qed.

Lemma emptyHistogram_length data bins : length (emptyHistogram data bins) = bins.
Proof. unfold emptyHistogram. rewrite length_map, length_seq. reflexivity. Qed.

Lemma emptyHistogram_total data bins : totalCount (emptyHistogram data bins) = 0%nat.
Proof.
  unfold totalCount, emptyHistogram. rewrite map_map. cbn [count].
  induction (seq 0 bins) as [| i l IH]; [reflexivity | exact IH].
Qed.

(** Away from the zero-width case the histogram is built and its counts sum
    to the number of samples: finite samples, two of them different, at
    least one bin. *)
Lemma createHistogram_counts data bins :
  (1 <= bins)%nat -> Forall finite data ->
  (exists x y, In (Num x) data /\ In (Num y) data /\ x < y) ->
  exists histogram,
    createHistogram data bins = Ok histogram
    /\ length histogram = bins
    /\ totalCount histogram = length data.
Proof.
  intros Hbins Hfin (x & y & Hx & Hy & Hxy).
  destruct (finite_list data Hfin) as [xs ->].
  assert (Hinj : forall v, In (Num v) (map Num xs) -> In v xs).
  { intros v Hv. apply in_map_iff in Hv. destruct Hv as (w & [= ->] & Hw).
    exact Hw. }
  destruct (data_bounds xs x y (Hinj x Hx) (Hinj y Hy) Hxy)
    as (m & M & Hmin & Hmax & HmM & Hall).
  destruct (forEach_ok (map Num xs) bins (map Num xs)
              (emptyHistogram (map Num xs) bins)) as (h & E & Hlen & Hcount).
  - apply Forall_forall. intros val Hval.
    apply in_map_iff in Hval. destruct Hval as (v & <- & Hv).
    rewrite Forall_forall in Hall.
    apply (binIndex_valid _ _ m M); auto. apply Hall. exact Hv.
  - apply emptyHistogram_length.
  - exists h. split; [exact E |]. split; [exact Hlen |].
    rewrite Hcount, emptyHistogram_total. reflexivity.
Qed.

(** Whenever the histogram is returned, it has [bins] bins and its counts
    sum to the number of samples. *)
Lemma increment_counts histogram : forall i histogram',
  increment histogram i = Some histogram' ->
  length histogram' = length histogram
  /\ totalCount histogram' = S (totalCount histogram).
Proof.
  induction histogram as [| b rest IH]; intros i h' E; [discriminate |].
  assert (Hi : (i < length (b :: rest))%nat).
  { revert i h' E. clear IH. generalize (b :: rest) as l.
    induction l as [| b' l IHl]; intros i h' E; [discriminate |].
    destruct i as [| i]; cbn [length]; [lia |]. cbn [increment] in E.
    destruct (increment l i) as [l' |] eqn:El; [| discriminate].
    specialize (IHl i l' El). lia. }
  destruct (increment_ok (b :: rest) i Hi) as (h & Eh & Hlen & Hcount).
  rewrite Eh in E. injection E as <-. split; assumption.
Qed.

Lemma forEach_counts data bins vals : forall histogram histogram',
  forEach data bins vals histogram = Ok histogram' ->
  length histogram' = length histogram
  /\ totalCount histogram' = (totalCount histogram + length vals)%nat.
Proof.
  induction vals as [| val rest IH]; intros h h' E; cbn [forEach] in E.
  - injection E as <-. cbn [length]. split; lia.
  - destruct (arrayIndex (binIndex data bins val)) as [i |]; [| discriminate].
    destruct (increment h i) as [h1 |] eqn:E1; [| discriminate].
    destruct (increment_counts h i h1 E1) as [Hlen1 Hcount1].
    destruct (IH h1 h' E) as [Hlen Hcount].
    cbn [length]. split; lia.
Qed.

Lemma createHistogram_returned_counts data bins histogram :
  createHistogram data bins = Ok histogram ->
  length histogram = bins /\ totalCount histogram = length data.
Proof.
  intros E. apply forEach_counts in E. destruct E as [Hlen Hcount].
  rewrite emptyHistogram_length in Hlen. rewrite emptyHistogram_total in Hcount.
  split; assumption.
Qed.

(** ** The histogram over samples of zero range *)

Lemma fold_min2_repeat x n :
  fold_left min2 (repeat (Num x) n) (Num x) = Num x.
Proof.
  induction n as [| n IH]; [reflexivity |].
  cbn [repeat fold_left]. rewrite min2_Num.
  replace (Rmin x x) with x; [exact IH |].
  unfold Rmin. destruct (Rle_dec x x); reflexivity.
Qed.

Lemma fold_max2_repeat x n :
  fold_left max2 (repeat (Num x) n) (Num x) = Num x.
Proof.
  induction n as [| n IH]; [reflexivity |].
  cbn [repeat fold_left]. rewrite max2_Num.
  replace (Rmax x x) with x; [exact IH |].
  unfold Rmax. destruct (Rle_dec x x); reflexivity.
Qed.

Lemma dataMin_repeat x n : dataMin (repeat (Num x) (S n)) = Num x.
Proof. unfold dataMin, Math_min. cbn [repeat fold_left]. apply fold_min2_repeat. Qed.

Lemma dataMax_repeat x n : dataMax (repeat (Num x) (S n)) = Num x.
Proof. unfold dataMax, Math_max. cbn [repeat fold_left]. apply fold_max2_repeat. Qed.

(** With [max = min] the bin width is [0] (or [NaN] for no bin), the
    quotient [(val - min) / binSize] is [0 / 0] and the bin index is [NaN]. *)
Lemma binIndex_zero_range data bins x :
  dataMin data = Num x -> dataMax data = Num x ->
  binIndex data bins (Num x) = NaN.
Proof.
  intros Hmin Hmax. unfold binIndex, binSize, range. rewrite Hmin, Hmax.
  cbn [nsub nadd nopp]. replace (x + - x) with 0 by ring.
  assert (Hsize : (Num 0 / ofNat bins)%js = NaN
                  \/ (Num 0 / ofNat bins)%js = Num 0).
  { unfold ndiv, ofNat. destruct (Rsign (INR bins)).
    - right. f_equal. unfold Rdiv. ring.
    - left. rewrite (Rsign_zero 0) by reflexivity. reflexivity.
    - right. f_equal. unfold Rdiv. ring. }
  destruct Hsize as [-> | ->]; [reflexivity |].
  rewrite ndiv_zero_zero. reflexivity.
Qed.

Lemma forEach_invalid_index data bins val rest histogram :
  arrayIndex (binIndex data bins val) = None ->
  forEach data bins (val :: rest) histogram = Throw TypeError.
Proof. intros H. cbn [forEach]. rewrite H. reflexivity. Qed.

Lemma createHistogram_zero_range x n bins :
  createHistogram (repeat (Num x) (S n)) bins = Throw TypeError.
Proof.
  unfold createHistogram. change (repeat (Num x) (S n)) with (Num x :: repeat (Num x) n) at 2.
  apply forEach_invalid_index.
  rewrite binIndex_zero_range; [reflexivity | apply dataMin_repeat | apply dataMax_repeat].
Qed.

Lemma createHistogram_one_sample val bins :
  createHistogram [val] bins = Throw TypeError.
Proof.
  destruct val as [x | | |].
  - apply (createHistogram_zero_range x 0).
  - reflexivity.
  - reflexivity.
  - reflexivity.
Qed.

(** A single turn of the loop leaves one cost sample, and the histogram of
    one sample is never built. *)
Lemma runMonteCarlo_one_iteration (random : nat -> R)
  (baseCost baseTime riskFactor : number) (s : nat) :
  runMonteCarlo random baseCost baseTime riskFactor 1 s
  = (Throw TypeError, S (S s)).
Proof.
  unfold runMonteCarlo. rewrite simulate_eq.
  change (Z.to_nat 1) with 1%nat. cbn [seq map costs times].
  rewrite createHistogram_one_sample. f_equal. lia.
Qed.

(** C1: the sum of the bin counts should be the number of samples for every
    non-empty list; for a list of one sample, whatever the sample and the
    number of bins, [createHistogram] returns no histogram at all: the bin
    index is [NaN] and the increment raises a [TypeError]. *)
Theorem createHistogram_singleton_throws (val : number) (bins : nat) :
  createHistogram [val] bins = Throw TypeError
  /\ ~ (exists histogram,
          createHistogram [val] bins = Ok histogram
          /\ totalCount histogram = length [val]).
Proof.
  split; [apply createHistogram_one_sample |].
  intros (h & E & _). rewrite createHistogram_one_sample in E. discriminate.
Qed.

(** C4: identical samples (range [0]) should all go to bin 0; the code has
    no such case: for [n + 1] copies of a sample the division [0 / 0] gives a
    [NaN] bin index and [createHistogram] raises a [TypeError], so does every
    run of [runMonteCarlo] with [iterations = 1]. *)
Theorem createHistogram_identical_samples_throw :
  (forall (x : R) (n bins : nat),
      binIndex (repeat (Num x) (S n)) bins (Num x) = NaN
      /\ createHistogram (repeat (Num x) (S n)) bins = Throw TypeError)
  /\ (forall random baseCost baseTime riskFactor s,
         fst (runMonteCarlo random baseCost baseTime riskFactor 1 s)
         = Throw TypeError).
Proof.
  split.
  - intros x n bins. split.
    + apply binIndex_zero_range; [apply dataMin_repeat | apply dataMax_repeat].
    + apply createHistogram_zero_range.
  - intros. rewrite runMonteCarlo_one_iteration. reflexivity.
Qed.

(** ** No validation of the inputs *)

Lemma Rsign_INR (n : nat) : Rsign (INR n) = Zero \/ Rsign (INR n) = Pos.
Proof.
  destruct (Req_dec (INR n) 0) as [H | H].
  - left. apply Rsign_zero. exact H.
  - right. apply Rsign_pos. pose proof (pos_INR n). lra.
Qed.

Lemma emptyHistogram_no_data bins :
  emptyHistogram [] bins = repeat (mkBin (NaN, NaN) 0) bins.
Proof.
  unfold emptyHistogram.
  assert (Hsize : binSize [] bins = NegInf).
  { unfold binSize, range, dataMin, dataMax, Math_min, Math_max, ofNat.
    cbn [fold_left nsub nadd nopp ndiv].
    destruct (Rsign_INR bins) as [-> | ->]; reflexivity. }
  rewrite Hsize.
  assert (Hbin : forall i,
    mkBin (Math_round (dataMin [] + ofNat i * NegInf),
           Math_round (dataMin [] + (ofNat i + Num 1) * NegInf))%js 0
    = mkBin (NaN, NaN) 0).
  { intros i. unfold dataMin, Math_min, ofNat. cbn [fold_left nadd nmul].
    rewrite (Rsign_pos (INR i + 1)) by (pose proof (pos_INR i); lra).
    destruct (Rsign_INR i) as [-> | ->]; reflexivity. }
  rewrite <- (length_seq bins 0) at 2.
  induction (seq 0 bins) as [| i l IH]; [reflexivity |].
  cbn [map length repeat]. rewrite Hbin, IH. reflexivity.
Qed.

Lemma createHistogram_no_data bins :
  createHistogram [] bins = Ok (repeat (mkBin (NaN, NaN) 0) bins).
Proof. unfold createHistogram. cbn [forEach]. rewrite emptyHistogram_no_data. reflexivity. Qed.

Lemma runMonteCarlo_zero_iterations (random : nat -> R)
  (baseCost baseTime riskFactor : number) (s : nat) :
  runMonteCarlo random baseCost baseTime riskFactor 0 s
  = (Ok resultOfNoIteration, s).
Proof.
  unfold runMonteCarlo, simulate. cbn [Z.to_nat loop costs times successes fold_left].
  rewrite !createHistogram_no_data.
  unfold ofNat, ofZ. cbn [INR]. rewrite ndiv_zero_zero. reflexivity.
Qed.

Lemma runMonteCarlo_draws (random : nat -> R)
  (baseCost baseTime riskFactor : number) (iterations : Z) (s : nat) :
  snd (runMonteCarlo random baseCost baseTime riskFactor iterations s)
  = (s + 2 * Z.to_nat iterations)%nat.
Proof. unfold runMonteCarlo. rewrite simulate_eq. reflexivity. Qed.

(** C2, as the specification states it, at [iterations = 0]: the call is
    expected to fail before sampling, and it returns a result. *)
Lemma runMonteCarlo_accepts_zero_iterations :
  fst (runMonteCarlo (fun _ => 0) (Num 1000) (Num 30) (Num 50) 0 0%nat)
  = Ok resultOfNoIteration
  /\ ~ failsBeforeSampling
         (runMonteCarlo (fun _ => 0) (Num 1000) (Num 30) (Num 50) 0) 0%nat.
Proof.
  rewrite runMonteCarlo_zero_iterations. split; [reflexivity |].
  intros [e He]. rewrite runMonteCarlo_zero_iterations in He. discriminate.
Qed.

(** C2, amended: [runMonteCarlo] validates nothing.  With [iterations = 0]
    it returns, whatever the other arguments, the result whose three
    statistics are [NaN] and whose histograms are ten empty bins; for every
    argument, valid or not, the loop makes its [2 * iterations] draws first,
    so a call with [iterations >= 1] never fails before sampling; and a
    failure is the exception of one of the two [createHistogram] calls on
    the collected samples. *)
Theorem runMonteCarlo_no_validation (random : nat -> R)
  (baseCost baseTime riskFactor : number) (s : nat) :
  runMonteCarlo random baseCost baseTime riskFactor 0 s
  = (Ok resultOfNoIteration, s)
  /\ (forall iterations,
        snd (runMonteCarlo random baseCost baseTime riskFactor iterations s)
        = (s + 2 * Z.to_nat iterations)%nat)
  /\ (forall iterations, (1 <= iterations)%Z ->
        ~ failsBeforeSampling
            (runMonteCarlo random baseCost baseTime riskFactor iterations) s)
  /\ (forall iterations e,
        fst (runMonteCarlo random baseCost baseTime riskFactor iterations s)
        = Throw e ->
        let samples :=
          fst (simulate random baseCost baseTime riskFactor iterations s) in
        createHistogram (costs samples) 10 = Throw e
        \/ createHistogram (times samples) 10 = Throw e).
Proof.
  split; [apply runMonteCarlo_zero_iterations |].
  split; [intros; apply runMonteCarlo_draws |].
  split.
  - intros iterations Hpos [e He].
    pose proof (runMonteCarlo_draws random baseCost baseTime riskFactor
                  iterations s) as Hdraws.
    rewrite He in Hdraws. cbn [snd] in Hdraws. lia.
  - intros iterations e. unfold runMonteCarlo.
    destruct (simulate random baseCost baseTime riskFactor iterations s)
      as [samples s']. cbn [fst].
    destruct (createHistogram (costs samples) 10) as [h1 | e1].
    + destruct (createHistogram (times samples) 10) as [h2 | e2].
      * discriminate.
      * intros [= <-]. right. reflexivity.
    + intros [= <-]. left. reflexivity.
Qed.

Lemma runMonteCarlo_no_validation_witness :
  runMonteCarlo (fun _ => 0) (Num (-10)) (Num 30) (Num (-5)) 0 0%nat
  = (Ok resultOfNoIteration, 0%nat)
  /\ snd (runMonteCarlo (fun _ => 0) (Num (-10)) (Num 30) (Num (-5)) 2 0%nat)
     = 4%nat
  /\ ~ failsBeforeSampling
         (runMonteCarlo (fun _ => 0) (Num (-10)) (Num 30) (Num (-5)) 2) 0%nat.
Proof.
  destruct (runMonteCarlo_no_validation (fun _ => 0) (Num (-10)) (Num 30)
              (Num (-5)) 0%nat) as (Hzero & Hdraws & Hsampling & _).
  split; [exact Hzero |]. split; [apply Hdraws | apply Hsampling; lia].
Defined.

(** ** The result as a function of the draws *)

Lemma runMonteCarlo_same_draws (random random' : nat -> R)
  (baseCost baseTime riskFactor : number) (iterations : Z) (s s' : nat) :
  (forall k, (k < 2 * Z.to_nat iterations)%nat ->
             random (s + k)%nat = random' (s' + k)%nat) ->
  fst (runMonteCarlo random baseCost baseTime riskFactor iterations s)
  = fst (runMonteCarlo random' baseCost baseTime riskFactor iterations s').
Proof.
  intros Hdraws. unfold runMonteCarlo. rewrite !simulate_eq. cbn [fst costs times successes].
  assert (Hcost : forall i, In i (seq 0 (Z.to_nat iterations)) ->
            costOf random baseCost riskFactor (s + 2 * i)
            = costOf random' baseCost riskFactor (s' + 2 * i)).
  { intros i Hi. apply in_seq in Hi. unfold costOf.
    rewrite (Hdraws (2 * i)%nat) by lia. reflexivity. }
  assert (Htime : forall i, In i (seq 0 (Z.to_nat iterations)) ->
            timeOf random baseTime riskFactor (s + 2 * i + 1)
            = timeOf random' baseTime riskFactor (s' + 2 * i + 1)).
  { intros i Hi. apply in_seq in Hi. unfold timeOf.
    rewrite <- !Nat.add_assoc. rewrite (Hdraws (2 * i + 1)%nat) by lia.
    reflexivity. }
  rewrite (map_ext_in _ _ _ Hcost), (map_ext_in _ _ _ Htime).
  rewrite (filter_ext_in (succeeds random baseCost baseTime riskFactor s)
             (succeeds random' baseCost baseTime riskFactor s')).
  - reflexivity.
  - intros i Hi. unfold succeeds. rewrite (Hcost i Hi), (Htime i Hi). reflexivity.
Qed.

Lemma runMonteCarlo_returns (random : nat -> R)
  (baseCost baseTime riskFactor : number) (iterations : Z) (s : nat) :
  (exists h, createHistogram
               (costs (fst (simulate random baseCost baseTime riskFactor
                              iterations s))) 10 = Ok h) ->
  (exists h, createHistogram
               (times (fst (simulate random baseCost baseTime riskFactor
                              iterations s))) 10 = Ok h) ->
  exists r,
    fst (runMonteCarlo random baseCost baseTime riskFactor iterations s) = Ok r.
Proof.
  intros [h1 E1] [h2 E2]. unfold runMonteCarlo.
  destruct (simulate random baseCost baseTime riskFactor iterations s)
    as [samples s']. cbn [fst] in *. rewrite E1, E2. eexists. reflexivity.
Qed.

(** ** The scenario 1000, 30, 50 *)

Lemma scenario_cost (random : nat -> R) (k : nat) :
  costOf random (Num 1000) (Num 50) k
  = triangularAt (Num 800) (Num 1000) (Num 2000) (Num (random k)).
Proof.
  unfold costOf, minMultiplier, maxMultiplier. rewrite ndiv_Num by lra.
  cbn [nadd nmul]. f_equal; f_equal; lra.
Qed.

Lemma scenario_time (random : nat -> R) (k : nat) :
  timeOf random (Num 30) (Num 50) k
  = triangularAt (Num 24) (Num 30) (Num 60) (Num (random k)).
Proof.
  unfold timeOf, minMultiplier, maxMultiplier. rewrite ndiv_Num by lra.
  cbn [nadd nmul]. f_equal; f_equal; lra.
Qed.

Lemma triangularAt_first_draw (a c b : R) :
  a < c -> c <= b -> triangularAt (Num a) (Num c) (Num b) (Num 0) = Num a.
Proof.
  intros Hac Hcb. rewrite triangularAt_low; try lra.
  - f_equal. replace (0 * (b - a) * (c - a)) with 0 by ring.
    rewrite sqrt_0. ring.
  - apply fraction_lt; lra.
Qed.

Lemma scenario_cost_high :
  triangularAt (Num 800) (Num 1000) (Num 2000) (Num 0.7) = Num 1400.
Proof.
  rewrite triangularAt_high; try lra.
  f_equal. replace ((1 - 0.7) * (2000 - 800) * (2000 - 1000)) with (600 * 600) by lra.
  rewrite sqrt_square by lra. lra.
Qed.

Lemma scenario_time_high :
  triangularAt (Num 24) (Num 30) (Num 60) (Num 0.7) = Num 42.
Proof.
  rewrite triangularAt_high; try lra.
  f_equal. replace ((1 - 0.7) * (60 - 24) * (60 - 30)) with (18 * 18) by lra.
  rewrite sqrt_square by lra. lra.
Qed.

Lemma scenario_succeeds (random : nat -> R) (s i : nat) :
  random (s + 2 * i)%nat = 0 -> random (s + 2 * i + 1)%nat = 0 ->
  succeeds random (Num 1000) (Num 30) (Num 50) s i = true.
Proof.
  intros Hc Ht. unfold succeeds. rewrite scenario_cost, scenario_time, Hc, Ht.
  rewrite !triangularAt_first_draw by lra.
  unfold success. cbn [nmul nleb]. rewrite !Rleb_true by lra. reflexivity.
Qed.

Lemma scenario_fails (random : nat -> R) (s i : nat) :
  random (s + 2 * i)%nat = 0.7 ->
  succeeds random (Num 1000) (Num 30) (Num 50) s i = false.
Proof.
  intros Hc. unfold succeeds. rewrite scenario_cost, Hc, scenario_cost_high.
  unfold success. cbn [nmul nleb]. rewrite Rleb_false by lra. reflexivity.
Qed.

Lemma filter_nothing {A : Type} (p : A -> bool) (l : list A) :
  (forall x, In x l -> p x = false) -> filter p l = [].
Proof.
  induction l as [| x l IH]; intros H; [reflexivity |].
  cbn [filter]. rewrite (H x (or_introl eq_refl)).
  apply IH. intros y Hy. apply H. right. exact Hy.
Qed.

Lemma scenarioDraws_range (k : nat) : 0 <= scenarioDraws k < 1.
Proof.
  unfold scenarioDraws.
  destruct (Z.of_nat k <? 2)%Z; [lra |].
  destruct (Z.of_nat k <? 20000)%Z; [lra |].
  destruct (Z.of_nat k <? 20004)%Z; lra.
Qed.

Lemma scenarioDraws_low (k : nat) :
  (Z.of_nat k < 2 \/ 20000 <= Z.of_nat k < 20004)%Z -> scenarioDraws k = 0.
Proof.
  intros H. unfold scenarioDraws.
  destruct (Z.ltb_spec (Z.of_nat k) 2); [reflexivity |].
  destruct (Z.ltb_spec (Z.of_nat k) 20000); [lia |].
  destruct (Z.ltb_spec (Z.of_nat k) 20004); [reflexivity | lia].
Qed.

Lemma scenarioDraws_high (k : nat) :
  (2 <= Z.of_nat k < 20000 \/ 20004 <= Z.of_nat k)%Z -> scenarioDraws k = 0.7.
Proof.
  intros H. unfold scenarioDraws.
  destruct (Z.ltb_spec (Z.of_nat k) 2); [lia |].
  destruct (Z.ltb_spec (Z.of_nat k) 20000); [reflexivity |].
  destruct (Z.ltb_spec (Z.of_nat k) 20004); [lia | reflexivity].
Qed.

Lemma filter_everything {A : Type} (p : A -> bool) (l : list A) :
  (forall x, In x l -> p x = true) -> filter p l = l.
Proof.
  induction l as [| x l IH]; intros H; [reflexivity |].
  cbn [filter]. rewrite (H x (or_introl eq_refl)). f_equal.
  apply IH. intros y Hy. apply H. right. exact Hy.
Qed.

(** A run of the scenario whose first [j] turns draw [0] (cost 800, time 24,
    a success) and whose other turns draw [0.7] (cost 1400, time 42, a
    failure) returns a result with [probabilityOfSuccess = j / iterations]. *)
Section ScenarioRun.
Variable random : nat -> R.
Variable iterations : Z.
Variables s j : nat.
Hypothesis random_range : forall k, 0 <= random k < 1.
Hypothesis some_success : (1 <= j)%nat.
Hypothesis some_failure : (j < Z.to_nat iterations)%nat.
Hypothesis first_turns : forall i, (i < j)%nat ->
  random (s + 2 * i)%nat = 0 /\ random (s + 2 * i + 1)%nat = 0.
Hypothesis other_turns : forall i, (j <= i < Z.to_nat iterations)%nat ->
  random (s + 2 * i)%nat = 0.7 /\ random (s + 2 * i + 1)%nat = 0.7.

Lemma scenario_successes :
  successes (fst (simulate random (Num 1000) (Num 30) (Num 50) iterations s))
  = j.
Proof.
  rewrite simulate_eq. cbn [fst successes].
  replace (Z.to_nat iterations) with (j + (Z.to_nat iterations - j))%nat by lia.
  rewrite seq_app, filter_app, length_app.
  rewrite filter_everything, filter_nothing.
  - rewrite length_seq. cbn [length]. lia.
  - intros i Hi. apply in_seq in Hi. apply scenario_fails.
    apply other_turns. lia.
  - intros i Hi. apply in_seq in Hi.
    apply scenario_succeeds; apply first_turns; lia.
Qed.

Lemma scenario_costs_histogram :
  exists h,
    createHistogram
      (costs (fst (simulate random (Num 1000) (Num 30) (Num 50) iterations s)))
      10 = Ok h.
Proof.
  destruct (createHistogram_counts
              (costs (fst (simulate random (Num 1000) (Num 30) (Num 50)
                             iterations s))) 10) as (h & E & _).
  - lia.
  - rewrite simulate_eq. cbn [fst costs]. apply Forall_forall.
    intros v Hv. apply in_map_iff in Hv. destruct Hv as (i & <- & _).
    rewrite scenario_cost.
    destruct (triangularAt_bounds 800 1000 2000 (random (s + 2 * i)))
      as (x & E & _); try lra; [apply random_range |].
    exists x. exact E.
  - exists 800, 1400. rewrite simulate_eq. cbn [fst costs].
    split; [| split; [| lra]].
    + apply in_map_iff. exists 0%nat. split; [| apply in_seq; lia].
      rewrite scenario_cost, (proj1 (first_turns 0%nat some_success)).
      apply triangularAt_first_draw; lra.
    + apply in_map_iff. exists j. split; [| apply in_seq; lia].
      rewrite scenario_cost, (proj1 (other_turns j (conj (le_n j) some_failure))).
      apply scenario_cost_high.
  - exists h. exact E.
Qed.

Lemma scenario_times_histogram :
  exists h,
    createHistogram
      (times (fst (simulate random (Num 1000) (Num 30) (Num 50) iterations s)))
      10 = Ok h.
Proof.
  destruct (createHistogram_counts
              (times (fst (simulate random (Num 1000) (Num 30) (Num 50)
                             iterations s))) 10) as (h & E & _).
  - lia.
  - rewrite simulate_eq. cbn [fst times]. apply Forall_forall.
    intros v Hv. apply in_map_iff in Hv. destruct Hv as (i & <- & _).
    rewrite scenario_time.
    destruct (triangularAt_bounds 24 30 60 (random (s + 2 * i + 1)))
      as (x & E & _); try lra; [apply random_range |].
    exists x. exact E.
  - exists 24, 42. rewrite simulate_eq. cbn [fst times].
    split; [| split; [| lra]].
    + apply in_map_iff. exists 0%nat. split; [| apply in_seq; lia].
      rewrite scenario_time, (proj2 (first_turns 0%nat some_success)).
      apply triangularAt_first_draw; lra.
    + apply in_map_iff. exists j. split; [| apply in_seq; lia].
      rewrite scenario_time, (proj2 (other_turns j (conj (le_n j) some_failure))).
      apply scenario_time_high.
  - exists h. exact E.
Qed.

Lemma scenario_run :
  exists r,
    fst (runMonteCarlo random (Num 1000) (Num 30) (Num 50) iterations s) = Ok r
    /\ probabilityOfSuccess r = (ofNat j / ofZ iterations)%js.
Proof.
  destruct (runMonteCarlo_returns random (Num 1000) (Num 30) (Num 50)
              iterations s scenario_costs_histogram scenario_times_histogram)
    as [r E].
  exists r. split; [exact E |].
  rewrite (runMonteCarlo_probability _ _ _ _ _ _ _ E), scenario_successes.
  reflexivity.
Qed.
End ScenarioRun.

Lemma scenario_first_run :
  exists r,
    fst (runMonteCarlo scenarioDraws (Num 1000) (Num 30) (Num 50) 10000 0%nat)
    = Ok r
    /\ probabilityOfSuccess r = Num (1 / 10000).
Proof.
  destruct (scenario_run scenarioDraws 10000 0 1) as (r & E & Hp).
  - apply scenarioDraws_range.
  - lia.
  - lia.
  - intros i Hi. split; apply scenarioDraws_low; lia.
  - intros i Hi. split; apply scenarioDraws_high; lia.
  - exists r. split; [exact E |]. rewrite Hp. unfold ofNat, ofZ.
    rewrite ndiv_Num by lra. reflexivity.
Qed.

Lemma scenario_second_run :
  exists r,
    fst (runMonteCarlo scenarioDraws (Num 1000) (Num 30) (Num 50) 10000
           (snd (runMonteCarlo scenarioDraws (Num 1000) (Num 30) (Num 50)
                   10000 0%nat)))
    = Ok r
    /\ probabilityOfSuccess r = Num (2 / 10000).
Proof.
  rewrite runMonteCarlo_draws.
  destruct (scenario_run scenarioDraws 10000 (0 + 2 * Z.to_nat 10000) 2)
    as (r & E & Hp).
  - apply scenarioDraws_range.
  - lia.
  - lia.
  - intros i Hi. split; apply scenarioDraws_low; lia.
  - intros i Hi. split; apply scenarioDraws_high; lia.
  - exists r. split; [exact E |]. rewrite Hp. unfold ofNat, ofZ.
    rewrite ndiv_Num by lra. cbn [INR]. f_equal; lra.
Qed.

(** C5, as the specification states it: two runs with the same inputs
    (1000, 30, 50, 10000) should return identical results.  The engine takes
    no random source; run twice in a row on the generator [scenarioDraws],
    it returns two results that differ, here in [probabilityOfSuccess]. *)
Lemma two_runs_same_inputs_differ :
  exists r1 r2,
    fst (runMonteCarlo scenarioDraws (Num 1000) (Num 30) (Num 50) 10000 0%nat)
    = Ok r1
    /\ fst (runMonteCarlo scenarioDraws (Num 1000) (Num 30) (Num 50) 10000
              (snd (runMonteCarlo scenarioDraws (Num 1000) (Num 30) (Num 50)
                      10000 0%nat)))
       = Ok r2
    /\ probabilityOfSuccess r1 = Num (1 / 10000)
    /\ probabilityOfSuccess r2 = Num (2 / 10000)
    /\ r1 <> r2.
Proof.
  destruct scenario_first_run as (r1 & E1 & H1).
  destruct scenario_second_run as (r2 & E2 & H2).
  exists r1, r2. repeat split; try assumption.
  intros Heq. rewrite Heq, H2 in H1. injection H1 as H1. lra.
Qed.

(** C5, amended: the outcome of [runMonteCarlo] is a function of its four
    arguments and of the [2 * iterations] values the generator returns during
    the call: two runs with the same arguments that receive the same draws
    have the same outcome, the same result or the same exception. *)
Theorem runMonteCarlo_determined_by_draws (random random' : nat -> R)
  (baseCost baseTime riskFactor : number) (iterations : Z) (s s' : nat) :
  (forall k, (k < 2 * Z.to_nat iterations)%nat ->
             random (s + k)%nat = random' (s' + k)%nat) ->
  fst (runMonteCarlo random baseCost baseTime riskFactor iterations s)
  = fst (runMonteCarlo random' baseCost baseTime riskFactor iterations s')
  /\ snd (runMonteCarlo random baseCost baseTime riskFactor iterations s)
     = (s + 2 * Z.to_nat iterations)%nat
  /\ snd (runMonteCarlo random' baseCost baseTime riskFactor iterations s')
     = (s' + 2 * Z.to_nat iterations)%nat.
Proof.
  intros Hdraws. split; [apply runMonteCarlo_same_draws; exact Hdraws |].
  split; apply runMonteCarlo_draws.
Qed.

Lemma runMonteCarlo_determined_by_draws_witness :
  fst (runMonteCarlo scenarioDraws (Num 1000) (Num 30) (Num 50) 10000 0%nat)
  = fst (runMonteCarlo (fun k => scenarioDraws (k - 7)) (Num 1000) (Num 30)
           (Num 50) 10000 7%nat)
  /\ snd (runMonteCarlo scenarioDraws (Num 1000) (Num 30) (Num 50) 10000 0%nat)
     = (0 + 2 * Z.to_nat 10000)%nat
  /\ snd (runMonteCarlo (fun k => scenarioDraws (k - 7)) (Num 1000) (Num 30)
            (Num 50) 10000 7%nat)
     = (7 + 2 * Z.to_nat 10000)%nat.
Proof.
  apply (runMonteCarlo_determined_by_draws scenarioDraws
           (fun k => scenarioDraws (k - 7)) (Num 1000) (Num 30) (Num 50)
           10000 0%nat 7%nat).
  intros k _. f_equal. lia.
Defined.

(** C8: for valid inputs (positive baselines, a non-negative risk factor,
    at least one iteration, draws in [[0, 1)]) the [probabilityOfSuccess] of
    the result of [runMonteCarlo] is a finite number of [[0, 1]]. *)
Theorem probabilityOfSuccess_in_unit_interval (random : nat -> R)
  (baseCost baseTime riskFactor : R) (iterations : Z) (s : nat)
  (r : SimulationResult) :
  (forall k, 0 <= random k < 1) ->
  0 < baseCost -> 0 < baseTime -> 0 <= riskFactor -> (1 <= iterations)%Z ->
  fst (runMonteCarlo random (Num baseCost) (Num baseTime) (Num riskFactor)
         iterations s) = Ok r ->
  exists p, probabilityOfSuccess r = Num p /\ 0 <= p <= 1.
Proof.
  intros _ _ _ _ Hiterations Hrun.
  rewrite (runMonteCarlo_probability _ _ _ _ _ _ _ Hrun).
  apply probability_bounds; [apply successes_le | exact Hiterations].
Qed.

Lemma probabilityOfSuccess_in_unit_interval_witness :
  exists p,
    probabilityOfSuccess
      (valueOf resultOfNoIteration
         (fst (runMonteCarlo scenarioDraws (Num 1000) (Num 30) (Num 50)
                 10000 0%nat)))
    = Num p /\ 0 <= p <= 1.
Proof.
  apply (probabilityOfSuccess_in_unit_interval scenarioDraws 1000 30 50 10000
           0%nat
           (valueOf resultOfNoIteration
              (fst (runMonteCarlo scenarioDraws (Num 1000) (Num 30) (Num 50)
                      10000 0%nat)))).
  - apply scenarioDraws_range.
  - lra.
  - lra.
  - lra.
  - lia.
  - destruct scenario_first_run as (r & E & _). rewrite E. reflexivity.
Defined.

(** * The sampler under rounding *)

(** ** The order of rounded results *)

Lemma nle_Num (x y : R) : nle (Num x) (Num y) <-> x <= y.
Proof.
  unfold nle, nleb, Rleb. destruct (Rle_dec x y); split; intros; auto; discriminate.
Qed.


Lemma nle_trans (a b c : number) : nle a b -> nle b c -> nle a c.
Proof.
  unfold nle. destruct a as [x | | |], b as [y | | |], c as [z | | |];
    cbn [nleb]; try discriminate; try reflexivity.
  intros H1 H2. apply nle_Num in H1, H2. apply nle_Num. lra.
Qed.

(** A number that is not negative: a finite one or [Infinity]. *)
Lemma nle_zero_cases (v : number) :
  nle (Num 0) v -> (exists y, v = Num y /\ 0 <= y) \/ v = PosInf.
Proof.
  destruct v as [y | | |]; intros H; try discriminate H.
  - left. exists y. split; [reflexivity | apply nle_Num, H].
  - right. reflexivity.
Qed.

Lemma nle_finite_cases (v : number) (y : R) :
  nle (Num 0) v -> nle v (Num y) -> exists x, v = Num x /\ 0 <= x <= y.
Proof.
  intros H0 Hy. destruct v as [x | | |]; try discriminate.
  exists x. apply nle_Num in H0, Hy. auto.
Qed.

Section Laws.
Variable rnd : R -> number.
Hypothesis laws : Rounding rnd.

Lemma rnd_le (x y : R) : x <= y -> nle (rnd x) (rnd y).
Proof. apply (rnd_monotone rnd laws). Qed.

Lemma rnd_not_NaN (x : R) : rnd x <> NaN.
Proof.
  intros E. pose proof (rnd_le x x (Rle_refl x)) as H. unfold nle in H.
  rewrite E in H. discriminate H.
Qed.

Lemma rnd_nonneg (x : R) : 0 <= x -> nle (Num 0) (rnd x).
Proof. intros H. rewrite <- (rnd_zero rnd laws). apply rnd_le, H. Qed.

Lemma rnd_below (x y : R) : x <= y -> rnd y = Num y -> nle (rnd x) (Num y).
Proof. intros H E. rewrite <- E. apply rnd_le, H. Qed.

(** A rounded result between [0] and a number of the arithmetic is
    finite. *)
Lemma rnd_between (x y : R) :
  0 <= x <= y -> rnd y = Num y -> exists z, rnd x = Num z /\ 0 <= z <= y.
Proof.
  intros [H0 Hy] E. apply nle_finite_cases.
  - apply rnd_nonneg, H0.
  - apply rnd_below; assumption.
Qed.

Lemma nle_refl_rnd (x : R) : nle (rnd x) (rnd x).
Proof. apply rnd_le, Rle_refl. Qed.

(** The product with a positive number, the square root, the sum with and
    the difference from a number keep the order of non-negative numbers. *)
Lemma fmul_monotone (a b : number) (c : R) :
  0 < c -> nle (Num 0) a -> nle a b ->
  nle (Num 0) (Rounded.fmul rnd a (Num c))
  /\ nle (Rounded.fmul rnd a (Num c)) (Rounded.fmul rnd b (Num c)).
Proof.
  intros Hc Ha Hab. assert (Hb : nle (Num 0) b) by exact (nle_trans _ _ _ Ha Hab).
  assert (Hs : Rsign c = Pos).
  { unfold Rsign. destruct (total_order_T c 0) as [[H | H] | H];
      [lra | lra | reflexivity]. }
  unfold Rounded.fmul.
  destruct (nle_zero_cases a Ha) as [(x & -> & Hx) | ->],
           (nle_zero_cases b Hb) as [(y & -> & Hy) | ->];
    cbn [nmul Rounded.rounded]; rewrite ?Hs; cbn [inf_of Rounded.rounded].
  - apply nle_Num in Hab. split.
    + apply rnd_nonneg. nra.
    + apply rnd_le. nra.
  - split; [apply rnd_nonneg; nra |].
    destruct (rnd (x * c)) eqn:E; try reflexivity.
    exfalso. exact (rnd_not_NaN _ E).
  - discriminate Hab.
  - split; reflexivity.
Qed.

Lemma fsqrt_monotone (a b : number) :
  nle (Num 0) a -> nle a b ->
  nle (Num 0) (Rounded.fsqrt rnd a)
  /\ nle (Rounded.fsqrt rnd a) (Rounded.fsqrt rnd b).
Proof.
  intros Ha Hab. assert (Hb : nle (Num 0) b) by exact (nle_trans _ _ _ Ha Hab).
  unfold Rounded.fsqrt.
  assert (Hsqrt : forall x, 0 <= x -> Math_sqrt (Num x) = Num (sqrt x)).
  { intros x Hx. unfold Math_sqrt, Rltb.
    destruct (Rlt_dec x 0); [lra | reflexivity]. }
  destruct (nle_zero_cases a Ha) as [(x & -> & Hx) | ->],
           (nle_zero_cases b Hb) as [(y & -> & Hy) | ->];
    rewrite ?Hsqrt by assumption; cbn [Math_sqrt Rounded.rounded].
  - apply nle_Num in Hab. split.
    + apply rnd_nonneg, sqrt_pos.
    + apply rnd_le, sqrt_le_1; assumption.
  - split; [apply rnd_nonneg, sqrt_pos |].
    destruct (rnd (sqrt x)) eqn:E; try reflexivity.
    exfalso. exact (rnd_not_NaN _ E).
  - discriminate Hab.
  - split; reflexivity.
Qed.

Lemma fadd_monotone (m : R) (a b : number) :
  nle (Num 0) a -> nle a b ->
  nle (Rounded.fadd rnd (Num m) a) (Rounded.fadd rnd (Num m) b).
Proof.
  intros Ha Hab. assert (Hb : nle (Num 0) b) by exact (nle_trans _ _ _ Ha Hab).
  unfold Rounded.fadd.
  destruct (nle_zero_cases a Ha) as [(x & -> & Hx) | ->],
           (nle_zero_cases b Hb) as [(y & -> & Hy) | ->];
    cbn [nadd Rounded.rounded].
  - apply nle_Num in Hab. apply rnd_le. lra.
  - destruct (rnd (m + x)) eqn:E; try reflexivity.
    exfalso. exact (rnd_not_NaN _ E).
  - discriminate Hab.
  - reflexivity.
Qed.


Section Sampler.
Variables min mode max : R.
Hypothesis ordered : min <= mode <= max.









End Sampler.
End Laws.

Section NoRisk.
Variable rnd : R -> number.
Hypothesis laws : Rounding rnd.

Lemma maxMultiplier_no_risk : Rounded.maxMultiplier rnd (Num 0) = Num 1.
Proof.
  unfold Rounded.maxMultiplier, Rounded.fdiv, Rounded.fadd.
  assert (Hs : Rsign 50 = Pos).
  { unfold Rsign. destruct (total_order_T 50 0) as [[H | H] | H];
      [lra | lra | reflexivity]. }
  cbn [ndiv]. rewrite Hs. cbn [Rounded.rounded].
  replace (0 / 50) with 0 by field. rewrite (rnd_zero rnd laws).
  cbn [nadd Rounded.rounded]. replace (1 + 0) with 1 by lra.
  exact (rnd_one rnd laws).
Qed.

Lemma max_no_risk (base : R) :
  rnd base = Num base ->
  Rounded.fmul rnd (Num base) (Rounded.maxMultiplier rnd (Num 0)) = Num base.
Proof.
  intros Hbase. rewrite maxMultiplier_no_risk. unfold Rounded.fmul.
  cbn [nmul Rounded.rounded]. replace (base * 1) with base by lra.
  exact Hbase.
Qed.

(** With [mode = max = base], a draw of [[0, 1)] gives a sample that is at
    most [base] when adding the spread [base - min] back to [min] does not
    exceed [base] and the square root of the square of the spread does not
    exceed the spread. *)
Lemma sample_below_mode (base u : R) (min : number) :
  rnd base = Num base -> 0 <= u < 1 ->
  nle (Rounded.fadd rnd min (Rounded.fsub rnd (Num base) min)) (Num base) ->
  nle (Rounded.fsqrt rnd (Rounded.fmul rnd (Rounded.fsub rnd (Num base) min)
                                           (Rounded.fsub rnd (Num base) min)))
      (Rounded.fsub rnd (Num base) min) ->
  nle (Rounded.triangularAt rnd min (Num base) (Num base) (Num u)) (Num base).
Proof.
  intros Hbase Hu Hback Hroot.
  unfold Rounded.triangularAt, Rounded.branchFraction, Rounded.lowerBranch,
    Rounded.upperBranch.
  destruct (Rounded.fsub rnd (Num base) min) as [d | | |] eqn:Ed.
  - (* the spread is a finite number *)
    assert (Em : exists m, min = Num m).
    { destruct min as [m | | |]; [exists m; reflexivity | | |];
        unfold Rounded.fsub, nsub in Ed;
        cbn [nadd nopp Rounded.rounded] in Ed; discriminate Ed. }
    destruct Em as [m ->].
    assert (Hd : rnd d = Num d).
    { unfold Rounded.fsub, nsub in Ed. cbn [nadd nopp Rounded.rounded] in Ed.
      exact (rnd_idempotent rnd laws _ _ Ed). }
    assert (Hd0 : 0 <= d).
    { unfold Rounded.fmul, Rounded.fsqrt in Hroot.
      cbn [nmul Rounded.rounded] in Hroot.
      assert (Hsq : nle (Num 0) (rnd (d * d))) by (apply (rnd_nonneg rnd laws); nra).
      destruct (fsqrt_monotone rnd laws _ _ Hsq (nle_refl_rnd rnd laws _))
        as [Hpos _].
      apply nle_Num. exact (nle_trans _ _ _ Hpos Hroot). }
    unfold Rounded.fdiv. cbn [ndiv]. unfold Rsign.
    destruct (total_order_T d 0) as [[Hneg | Hzero] | Hpos]; [lra | |].
    + (* no spread: the fraction is NaN, the second branch returns base *)
      subst d. destruct (total_order_T 0 0) as [[H | H] | H]; [lra | | lra].
      cbn [inf_of Rounded.rounded nltb].
      destruct (rnd_between rnd laws (1 + - u) 1) as (g & Eg & Hg);
        [lra | exact (rnd_one rnd laws) |].
      assert (Esame : Rounded.fsub rnd (Num base) (Num base) = Num 0).
      { unfold Rounded.fsub, nsub. cbn [nadd nopp Rounded.rounded].
        replace (base + - base) with 0 by lra. exact (rnd_zero rnd laws). }
      rewrite Esame.
      unfold Rounded.fsub at 2. unfold nsub. cbn [nadd nopp Rounded.rounded].
      rewrite Eg. unfold Rounded.fmul, Rounded.fsqrt.
      cbn [nmul Rounded.rounded]. replace (g * 0) with 0 by lra.
      rewrite (rnd_zero rnd laws). cbn [nmul Rounded.rounded].
      replace (0 * 0) with 0 by lra. rewrite (rnd_zero rnd laws).
      unfold Math_sqrt, Rltb. destruct (Rlt_dec 0 0); [lra |].
      rewrite sqrt_0. cbn [Rounded.rounded]. rewrite (rnd_zero rnd laws).
      unfold Rounded.fsub, nsub. cbn [nadd nopp Rounded.rounded].
      replace (base + - 0) with base by lra. rewrite Hbase.
      apply nle_Num. lra.
    + (* the fraction is 1, the first branch is taken *)
      cbn [Rounded.rounded]. replace (d / d) with 1 by (field; lra).
      rewrite (rnd_one rnd laws). cbn [nltb]. unfold Rltb.
      destruct (Rlt_dec u 1); [| lra].
      destruct (rnd_between rnd laws (u * d) d) as (p & Ep & Hp);
        [nra | exact Hd |].
      unfold Rounded.fmul at 2. cbn [nmul Rounded.rounded]. rewrite Ep.
      assert (Hq : nle (Num 0) (Rounded.fmul rnd (Num p) (Num d))
                   /\ nle (Rounded.fmul rnd (Num p) (Num d))
                          (Rounded.fmul rnd (Num d) (Num d))).
      { apply (fmul_monotone rnd laws); [lra | apply nle_Num; lra
                                         | apply nle_Num; lra]. }
      destruct Hq as [Hq Hqd].
      destruct (fsqrt_monotone rnd laws _ _ Hq Hqd) as [Hs Hsd].
      pose proof (nle_trans _ _ _ Hsd Hroot) as Hsd'.
      exact (nle_trans _ _ _ (fadd_monotone rnd laws m _ _ Hs Hsd') Hback).
  - (* an infinite spread does not come back below base *)
    exfalso. destruct min as [m | | |];
      unfold Rounded.fadd in Hback; cbn [nadd Rounded.rounded] in Hback;
      discriminate Hback.
  - exfalso. unfold Rounded.fmul, Rounded.fsqrt in Hroot.
    cbn [nmul Math_sqrt Rounded.rounded] in Hroot. discriminate Hroot.
  - exfalso. unfold Rounded.fmul, Rounded.fsqrt in Hroot.
    cbn [nmul Math_sqrt Rounded.rounded] in Hroot. discriminate Hroot.
Qed.

(** A property of every cost sample is one of the array the loop fills. *)
Lemma loop_costs (random : nat -> R) (baseCost baseTime riskFactor : number)
  (P : number -> Prop) :
  (forall s, P (fst (Rounded.costSampler rnd random baseCost riskFactor s))) ->
  forall n acc s,
    Forall P (costs acc) ->
    Forall P (costs (fst (Rounded.loop rnd random baseCost baseTime
                            riskFactor n acc s))).
Proof.
  intros Hsample. induction n as [| n IH]; intros acc s Hacc; [exact Hacc |].
  cbn [Rounded.loop]. unfold Rounded.iteration.
  pose proof (Hsample s) as Hs.
  destruct (Rounded.costSampler rnd random baseCost riskFactor s)
    as [costSample s1].
  destruct (Rounded.timeSampler rnd random baseTime riskFactor s1)
    as [timeSample s2].
  apply IH. cbn [costs]. apply Forall_app. split; [exact Hacc |].
  constructor; [exact Hs | constructor].
Qed.
End NoRisk.

(** ** Two roundings *)

(** Exact arithmetic is the rounding that changes nothing. *)
Lemma exact_rounding : Rounding Num.
Proof.
  split; try reflexivity. intros x y H. apply nle_Num, H.
Qed.

(** With it the rounded sampler is the exact one. *)
Lemma rounded_exact (v : number) : Rounded.rounded Num v = v.
Proof. destruct v; reflexivity. Qed.

Lemma triangularAt_exact (min mode max u : number) :
  Rounded.triangularAt Num min mode max u = triangularAt min mode max u.
Proof.
  unfold Rounded.triangularAt, Rounded.branchFraction, Rounded.lowerBranch,
    Rounded.upperBranch, Rounded.fadd, Rounded.fsub, Rounded.fmul,
    Rounded.fdiv, Rounded.fsqrt.
  rewrite !rounded_exact. reflexivity.
Qed.

(** The fixed-point arithmetic rounds, and is one too. *)
Lemma fixedPoint_eq (x : R) (z : Z) :
  IZR z <= x * 1024 + / 2 < IZR z + 1 -> fixedPoint x = Num (IZR z / 1024).
Proof. intros H. unfold fixedPoint. rewrite (Zfloor_eq z _ H). reflexivity. Qed.

Lemma fixedPoint_grid (z : Z) : fixedPoint (IZR z / 1024) = Num (IZR z / 1024).
Proof. apply fixedPoint_eq. lra. Qed.

Lemma fixedPoint_integer (z : Z) : fixedPoint (IZR z) = Num (IZR z).
Proof.
  replace (IZR z) with (IZR (z * 1024) / 1024) at 1 2.
  - apply fixedPoint_grid.
  - rewrite mult_IZR. lra.
Qed.

Lemma fixedPoint_rounding : Rounding fixedPoint.
Proof.
  split.
  - intros x y H. apply nle_Num.
    assert (Hz : (Zfloor (x * 1024 + / 2) <= Zfloor (y * 1024 + / 2))%Z)
      by (apply Zfloor_le; lra).
    apply IZR_le in Hz. lra.
  - exact (fixedPoint_integer 0).
  - exact (fixedPoint_integer 1).
  - intros x y [= <-]. apply fixedPoint_grid.
Qed.



(** The cost distribution of [baseCost = 1000] in the fixed-point
    arithmetic: [0.8] rounds to [819/1024], the minimum is [819000/1024]
    and the spread [205000/1024]. *)
Lemma fixedPoint_cost_min :
  Rounded.fmul fixedPoint (Num 1000) (Rounded.minMultiplier fixedPoint)
  = Num (819000 / 1024).
Proof.
  unfold Rounded.minMultiplier. rewrite (fixedPoint_eq 0.8 819) by lra.
  unfold Rounded.fmul. cbn [nmul Rounded.rounded].
  apply (fixedPoint_eq _ 819000). lra.
Qed.

Lemma fixedPoint_cost_spread :
  Rounded.fsub fixedPoint (Num 1000) (Num (819000 / 1024))
  = Num (205000 / 1024).
Proof.
  unfold Rounded.fsub, nsub. cbn [nadd nopp Rounded.rounded].
  apply (fixedPoint_eq _ 205000). lra.
Qed.

(** ** The bounds and the order of the samples *)





(** C7, amended: under every rounding of the arithmetic, with
    [riskFactor = 0] the multiplier of the maximum is [1] and the maximum
    of the cost distribution is its mode [baseCost]; every cost sample the
    loop collects is at most [baseCost] when, as computed, adding the
    spread [d = baseCost - min] back to [min] does not exceed [baseCost]
    and [sqrt (d * d)] does not exceed [d]. *)
Theorem cost_draws_no_risk_rounded (rnd : R -> number) (random : nat -> R)
  (baseCost : R) (baseTime : number) (iterations : Z) (s : nat) :
  Rounding rnd ->
  rnd baseCost = Num baseCost ->
  (forall k, 0 <= random k < 1) ->
  (Rounded.fadd rnd (costMin rnd (Num baseCost))
     (costSpread rnd (Num baseCost))
   <=? Num baseCost)%js = true ->
  (Rounded.fsqrt rnd
     (Rounded.fmul rnd (costSpread rnd (Num baseCost))
        (costSpread rnd (Num baseCost)))
   <=? costSpread rnd (Num baseCost))%js = true ->
  Rounded.maxMultiplier rnd (Num 0) = Num 1
  /\ Rounded.fmul rnd (Num baseCost) (Rounded.maxMultiplier rnd (Num 0))
     = Num baseCost
  /\ Forall (fun costSample => (costSample <=? Num baseCost)%js = true)
            (costs (fst (Rounded.simulate rnd random (Num baseCost) baseTime
                           (Num 0) iterations s))).
Proof.
  intros laws Hbase Hdraws Hback Hroot. unfold costSpread, costMin in *.
  split; [exact (maxMultiplier_no_risk rnd laws) |].
  split; [exact (max_no_risk rnd laws baseCost Hbase) |].
  unfold Rounded.simulate.
  apply (loop_costs rnd random (Num baseCost) baseTime (Num 0)
           (fun costSample => (costSample <=? Num baseCost)%js = true));
    [| constructor].
  intros k. unfold Rounded.costSampler, Rounded.triangularSample,
    Rounded.Math_random. cbn [fst].
  rewrite (max_no_risk rnd laws baseCost Hbase).
  exact (sample_below_mode rnd laws baseCost (random k) _ Hbase (Hdraws k)
           Hback Hroot).
Qed.

Lemma cost_draws_no_risk_rounded_witness :
  Rounded.maxMultiplier fixedPoint (Num 0) = Num 1
  /\ Rounded.fmul fixedPoint (Num 1000)
       (Rounded.maxMultiplier fixedPoint (Num 0)) = Num 1000
  /\ Forall (fun costSample => (costSample <=? Num 1000)%js = true)
            (costs (fst (Rounded.simulate fixedPoint (fun _ => / 4)
                           (Num 1000) (Num 30) (Num 0) 3 0))).
Proof.
  apply (cost_draws_no_risk_rounded fixedPoint (fun _ => / 4) 1000 (Num 30)
           3 0%nat fixedPoint_rounding (fixedPoint_integer 1000)).
  - intros k. lra.
  - unfold costSpread, costMin.
    rewrite fixedPoint_cost_min, fixedPoint_cost_spread.
    unfold Rounded.fadd. cbn [nadd Rounded.rounded].
    rewrite (fixedPoint_eq _ 1024000) by lra. cbn [nleb].
    apply Rleb_true. lra.
  - unfold costSpread, costMin.
    rewrite fixedPoint_cost_min, fixedPoint_cost_spread.
    unfold Rounded.fmul. cbn [nmul Rounded.rounded].
    rewrite (fixedPoint_eq _ 41040039) by lra.
    unfold Rounded.fsqrt. rewrite Math_sqrt_Num by lra.
    cbn [Rounded.rounded].
    apply (rnd_below fixedPoint fixedPoint_rounding);
      [| exact (fixedPoint_grid 205000)].
    rewrite <- (sqrt_square (205000 / 1024)) by lra.
    apply sqrt_le_1; lra.
Defined.

(** * Where binary64 departs from the specification *)

Section Departures.
Import PrimFloat.


(** C7, as the specification states it, fails on the code in three ways,
    each time with [riskFactor = 0] and a draw of [[0, 1)].  A negative
    baseline is not rejected: with [baseCost = -10] the engine samples from
    [min = -8], [mode = max = -10] and the draw [0.25] gives the cost [-7].
    With [baseCost = 1e200] the square of the spread overflows and the draw
    [0.5] gives the cost [Infinity].  With [baseCost = 2^-535] the square
    of the spread underflows and the draw [1 - 2^-53] gives a cost above
    the baseline. *)
Lemma cost_draws_above_base :
  (Binary64.costs
     (fst (Binary64.simulate (fun _ => 0x1p-2%float) (-10)%float 30%float
             0%float 1 0%nat)) = [(-7)%float]
   /\ (-7 <=? -10)%float = false)
  /\ (Binary64.costs
        (fst (Binary64.simulate (fun _ => 0x1p-1%float)
                0x1.4e718d7d7625ap+664%float 30%float 0%float 1 0%nat))
      = [PrimFloat.infinity]
      /\ (PrimFloat.infinity <=? 0x1.4e718d7d7625ap+664)%float = false)
  /\ (Binary64.costs
        (fst (Binary64.simulate (fun _ => 0x1.fffffffffffffp-1%float)
                0x1p-535%float 30%float 0%float 1 0%nat))
      = [0x1.0cccccccccccdp-535%float]
      /\ (0x1.0cccccccccccdp-535 <=? 0x1p-535)%float = false).
Proof. vm_compute. repeat split; reflexivity. Qed.

(** The two conditions of the bound on the cost draws, as binary64
    computes them: both hold at [baseCost = 1000], and the one on the
    square root fails at the three baselines above. *)
Lemma no_risk_conditions_in_binary64 :
  ((Binary64.costMin 1000 + Binary64.costSpread 1000 <=? 1000)%float = true
   /\ (PrimFloat.sqrt (Binary64.costSpread 1000 * Binary64.costSpread 1000)
       <=? Binary64.costSpread 1000)%float = true)
  /\ (PrimFloat.sqrt (Binary64.costSpread (-10) * Binary64.costSpread (-10))
      <=? Binary64.costSpread (-10))%float = false
  /\ (PrimFloat.sqrt (Binary64.costSpread 0x1.4e718d7d7625ap+664
                      * Binary64.costSpread 0x1.4e718d7d7625ap+664)
      <=? Binary64.costSpread 0x1.4e718d7d7625ap+664)%float = false
  /\ (PrimFloat.sqrt (Binary64.costSpread 0x1p-535
                      * Binary64.costSpread 0x1p-535)
      <=? Binary64.costSpread 0x1p-535)%float = false.
Proof. vm_compute. repeat split; reflexivity. Qed.


(** On these inputs binary64 keeps what the sampler under rounding keeps:
    the bound of the branch taken, and the order on each side of the
    switch. *)
Lemma kept_bounds_in_binary64 :
  ((0 <? Binary64.branchFraction 0x1p-60 0x1p-60 1)%float = false
   /\ (Binary64.triangularAt 0x1p-60 0x1p-60 1 0 <=? 1)%float = true)
  /\ ((0x1.fffffffffffffp-1
       <? Binary64.branchFraction 0x1.3333333333333p-2
            0x1.ccccccccccccdp-1 0x1.ccccccccccccdp-1)%float = true
      /\ (0x1.3333333333333p-2
          <=? Binary64.triangularAt 0x1.3333333333333p-2
                0x1.ccccccccccccdp-1 0x1.ccccccccccccdp-1
                0x1.fffffffffffffp-1)%float = true)
  /\ ((0x1.5555555555553p-2 <? Binary64.branchFraction 2 5 11)%float = true
      /\ (Binary64.triangularAt 2 5 11 0x1p-2
          <=? Binary64.triangularAt 2 5 11 0x1.5555555555553p-2)%float
         = true)
  /\ ((0x1.5555555555555p-2 <? Binary64.branchFraction 2 5 11)%float = false
      /\ (Binary64.triangularAt 2 5 11 0x1.5555555555555p-2
          <=? Binary64.triangularAt 2 5 11 0x1p-1)%float = true).
Proof. vm_compute. repeat split; reflexivity. Qed.
End Departures.

(** * Further properties of the code *)

(** ** The result of a run that returns *)

Lemma runMonteCarlo_result (random : nat -> R)
  (baseCost baseTime riskFactor : number) (iterations : Z) (s : nat)
  (r : SimulationResult) :
  fst (runMonteCarlo random baseCost baseTime riskFactor iterations s) = Ok r ->
  let samples :=
    fst (simulate random baseCost baseTime riskFactor iterations s) in
  exists h1 h2,
    createHistogram (costs samples) 10 = Ok h1
    /\ createHistogram (times samples) 10 = Ok h2
    /\ r = mkResult (ofNat (successes samples) / ofZ iterations)%js
                    (fold_left nadd (costs samples) (Num 0) / ofZ iterations)%js
                    (fold_left nadd (times samples) (Num 0) / ofZ iterations)%js
                    h1 h2 [].
Proof.
  unfold runMonteCarlo.
  destruct (simulate random baseCost baseTime riskFactor iterations s)
    as [samples s']. cbn [fst].
  destruct (createHistogram (costs samples) 10) as [h1 | e1]; [| discriminate].
  destruct (createHistogram (times samples) 10) as [h2 | e2]; [| discriminate].
  intros [= <-]. exists h1, h2. repeat split.
Qed.

Lemma simulate_lengths (random : nat -> R)
  (baseCost baseTime riskFactor : number) (iterations : Z) (s : nat) :
  length (costs (fst (simulate random baseCost baseTime riskFactor
                        iterations s))) = Z.to_nat iterations
  /\ length (times (fst (simulate random baseCost baseTime riskFactor
                           iterations s))) = Z.to_nat iterations.
Proof.
  rewrite simulate_eq. cbn [fst costs times].
  rewrite !length_map, length_seq. split; reflexivity.
Qed.

(** X4: in every result that [runMonteCarlo] returns, each of the two
    distributions has exactly ten bins whose counts sum to the number of
    iterations, and the heat map is empty. *)
Theorem runMonteCarlo_distributions (random : nat -> R)
  (baseCost baseTime riskFactor : number) (iterations : Z) (s : nat)
  (r : SimulationResult) :
  fst (runMonteCarlo random baseCost baseTime riskFactor iterations s) = Ok r ->
  length (costDistribution r) = 10%nat
  /\ totalCount (costDistribution r) = Z.to_nat iterations
  /\ length (timeDistribution r) = 10%nat
  /\ totalCount (timeDistribution r) = Z.to_nat iterations
  /\ riskHeatmap r = [].
Proof.
  intros Hrun.
  destruct (runMonteCarlo_result _ _ _ _ _ _ _ Hrun) as (h1 & h2 & E1 & E2 & ->).
  cbn [costDistribution timeDistribution riskHeatmap].
  apply createHistogram_returned_counts in E1, E2.
  destruct (simulate_lengths random baseCost baseTime riskFactor iterations s)
    as [Hc Ht].
  destruct E1 as [L1 T1], E2 as [L2 T2]. rewrite Hc in T1. rewrite Ht in T2.
  repeat split; assumption.
Qed.

Lemma runMonteCarlo_distributions_witness :
  length (costDistribution
            (valueOf resultOfNoIteration
               (fst (runMonteCarlo scenarioDraws (Num 1000) (Num 30) (Num 50)
                       10000 0%nat)))) = 10%nat
  /\ totalCount (costDistribution
                   (valueOf resultOfNoIteration
                      (fst (runMonteCarlo scenarioDraws (Num 1000) (Num 30)
                              (Num 50) 10000 0%nat)))) = Z.to_nat 10000
  /\ length (timeDistribution
               (valueOf resultOfNoIteration
                  (fst (runMonteCarlo scenarioDraws (Num 1000) (Num 30)
                          (Num 50) 10000 0%nat)))) = 10%nat
  /\ totalCount (timeDistribution
                   (valueOf resultOfNoIteration
                      (fst (runMonteCarlo scenarioDraws (Num 1000) (Num 30)
                              (Num 50) 10000 0%nat)))) = Z.to_nat 10000
  /\ riskHeatmap
       (valueOf resultOfNoIteration
          (fst (runMonteCarlo scenarioDraws (Num 1000) (Num 30) (Num 50)
                  10000 0%nat))) = [].
Proof.
  apply (runMonteCarlo_distributions scenarioDraws (Num 1000) (Num 30)
           (Num 50) 10000 0%nat).
  destruct scenario_first_run as (r & E & _). rewrite E. reflexivity.
Defined.

(** ** A baseline of zero *)

Lemma createHistogram_NaN_first (rest : list number) (bins : nat) :
  createHistogram (NaN :: rest) bins = Throw TypeError.
Proof. unfold createHistogram. apply forEach_invalid_index. reflexivity. Qed.

Lemma map_constant {A B : Type} (f : A -> B) (b : B) (l : list A) :
  (forall a, f a = b) -> map f l = repeat b (length l).
Proof.
  intros H. induction l as [| a l IH]; [reflexivity |].
  cbn [map length repeat]. rewrite H, IH. reflexivity.
Qed.

(** With a baseline of [0] every sample is the same number: [0] when the
    maximum [0 * maxMultiplier] is finite, [NaN] when it is not. *)
Lemma zero_base_sample (m : number) :
  exists v, (v = Num 0 \/ v = NaN)
            /\ forall u, triangularAt (Num 0 * minMultiplier) (Num 0)
                                      (Num 0 * m) (Num u) = v.
Proof.
  unfold minMultiplier. cbn [nmul].
  replace (0 * 0.8) with 0 by ring.
  destruct m as [x | | |]; cbn [nmul].
  - exists (Num 0). split; [left; reflexivity |]. intros u'.
    replace (0 * x) with 0 by ring. apply triangularAt_degenerate.
  - exists NaN. split; [right; reflexivity |]. intros u'.
    rewrite (Rsign_zero 0) by reflexivity. reflexivity.
  - exists NaN. split; [right; reflexivity |]. intros u'.
    rewrite (Rsign_zero 0) by reflexivity. reflexivity.
  - exists NaN. split; [right; reflexivity |]. intros u'. reflexivity.
Qed.

Lemma createHistogram_constant (v : number) (n bins : nat) :
  v = Num 0 \/ v = NaN ->
  createHistogram (repeat v (S n)) bins = Throw TypeError.
Proof.
  intros [-> | ->].
  - apply createHistogram_zero_range.
  - apply createHistogram_NaN_first.
Qed.

Lemma zero_baseline_throws (random : nat -> R)
  (base riskFactor : number) (iterations : Z) (s : nat) :
  (1 <= iterations)%Z ->
  fst (runMonteCarlo random (Num 0) base riskFactor iterations s)
  = Throw TypeError
  /\ fst (runMonteCarlo random base (Num 0) riskFactor iterations s)
     = Throw TypeError.
Proof.
  intros Hiterations.
  destruct (zero_base_sample (maxMultiplier riskFactor))
    as (v & Hv & Hsample).
  assert (Hn : Z.to_nat iterations = S (Z.to_nat (iterations - 1))) by lia.
  split.
  - unfold runMonteCarlo. rewrite simulate_eq. cbn [costs times successes].
    rewrite (map_constant
               (fun i => costOf random (Num 0) riskFactor (s + 2 * i)) v)
      by (intros i; apply Hsample).
    rewrite length_seq, Hn, createHistogram_constant by exact Hv.
    reflexivity.
  - unfold runMonteCarlo. rewrite simulate_eq. cbn [costs times successes].
    rewrite (map_constant
               (fun i => timeOf random (Num 0) riskFactor (s + 2 * i + 1)) v)
      by (intros i; apply Hsample).
    rewrite length_seq, Hn, createHistogram_constant by exact Hv.
    destruct (createHistogram _ 10) as [h | []]; reflexivity.
Qed.

(** X7: with [baseCost = 0] (or [baseTime = 0]) every sample of the series
    is the same number, so for every risk factor, every other baseline and
    every [iterations >= 1] the run ends with the [TypeError] of
    [createHistogram] and returns no result. *)
Theorem runMonteCarlo_zero_baseline (random : nat -> R)
  (base riskFactor : number) (iterations : Z) (s : nat) :
  (1 <= iterations)%Z ->
  fst (runMonteCarlo random (Num 0) base riskFactor iterations s)
  = Throw TypeError
  /\ fst (runMonteCarlo random base (Num 0) riskFactor iterations s)
     = Throw TypeError.
Proof.
  intros Hiterations.
  destruct (zero_baseline_throws random base riskFactor iterations s
              Hiterations) as [Hcost Htime].
  split; [exact Hcost | exact Htime].
Qed.

Lemma runMonteCarlo_zero_baseline_witness :
  fst (runMonteCarlo (fun _ => / 2) (Num 0) (Num 90) (Num 40) 5000 0%nat)
  = Throw TypeError
  /\ fst (runMonteCarlo (fun _ => / 2) (Num 90) (Num 0) (Num 40) 5000 0%nat)
     = Throw TypeError.
Proof.
  apply (runMonteCarlo_zero_baseline (fun _ => / 2) (Num 90) (Num 40) 5000
           0%nat).
  lia.
Defined.

(** ** The dashboard *)

Lemma fold_costs (steps : list SubGoal) : forall a,
  Forall (fun step => estimatedCost step <> Some PosInf
                      /\ estimatedCost step <> Some NegInf) steps ->
  fold_left (fun acc curr => (acc + orZero (estimatedCost curr))%js) steps
            (Num a)
  = Num (a + fold_right Rplus 0 (map countedCost steps)).
Proof.
  induction steps as [| step steps IH]; intros a Hsteps.
  - cbn [fold_left map fold_right]. f_equal. lra.
  - inversion Hsteps as [| ? ? [Hpos Hneg] Hrest]; subst.
    cbn [fold_left map fold_right]. unfold countedCost at 1.
    destruct (estimatedCost step) as [[x | | |] |]; try contradiction;
      cbn [orZero nadd]; rewrite IH by exact Hrest; f_equal; lra.
Qed.

Lemma nadd_zero (a : number) : (a + Num 0)%js = a.
Proof. destruct a as [x | | |]; cbn [nadd]; [f_equal; lra | | |]; reflexivity. Qed.

Lemma fold_skips_missing (steps : list SubGoal) : forall acc,
  fold_left (fun acc curr => (acc + orZero (estimatedCost curr))%js)
            (filter hasEstimate steps) acc
  = fold_left (fun acc curr => (acc + orZero (estimatedCost curr))%js)
              steps acc.
Proof.
  induction steps as [| step steps IH]; intros acc; [reflexivity |].
  destruct step as [[[x | | |] |]];
    cbn [filter hasEstimate estimatedCost fold_left orZero];
    rewrite ?nadd_zero; apply IH.
Qed.

(** X8: the steps of the roadmap whose cost estimate is missing or [NaN]
    do not contribute to the total cost the dashboard simulates: the total
    is the one of the roadmap without them; and when no estimate is
    infinite, the total is not [NaN]. *)
Theorem totalCost_ignores_missing (scenario : Scenario) :
  totalCost scenario
  = totalCost (mkScenario (Some (filter hasEstimate (stepsOf scenario)))
                          (risk scenario))
  /\ (Forall (fun step => estimatedCost step <> Some PosInf
                          /\ estimatedCost step <> Some NegInf)
             (stepsOf scenario) ->
      totalCost scenario <> NaN).
Proof.
  split.
  - unfold totalCost. cbn [roadmap]. fold (stepsOf scenario).
    symmetry. apply fold_skips_missing.
  - intros Hsteps. unfold totalCost. fold (stepsOf scenario).
    rewrite fold_costs by exact Hsteps. discriminate.
Qed.

Lemma totalCost_ignores_missing_witness :
  totalCost (mkScenario (Some [mkSubGoal (Some (Num 300)); mkSubGoal None;
                               mkSubGoal (Some NaN);
                               mkSubGoal (Some (Num 200))])
                        (Some (Num 40)))
  = totalCost (mkScenario (Some [mkSubGoal (Some (Num 300));
                                 mkSubGoal (Some (Num 200))])
                          (Some (Num 40)))
  /\ totalCost (mkScenario (Some [mkSubGoal (Some (Num 300)); mkSubGoal None;
                                  mkSubGoal (Some NaN);
                                  mkSubGoal (Some (Num 200))])
                           (Some (Num 40))) <> NaN.
Proof.
  destruct (totalCost_ignores_missing
              (mkScenario (Some [mkSubGoal (Some (Num 300)); mkSubGoal None;
                                 mkSubGoal (Some NaN);
                                 mkSubGoal (Some (Num 200))])
                          (Some (Num 40)))) as [Hsame Hnan].
  split; [exact Hsame |]. apply Hnan. repeat constructor; discriminate.
Defined.

(** X9: for a scenario without roadmap, with an empty roadmap, or whose
    steps all lack a cost estimate (missing, [NaN] or [0]), the total cost is
    [0] and the simulation of the dashboard raises the [TypeError] of
    [createHistogram], whatever the risk of the scenario. *)
Theorem dashboardSimulation_without_costs (random : nat -> R)
  (scenario : Scenario) (s : nat) :
  Forall (fun step => countedCost step = 0
                      /\ estimatedCost step <> Some PosInf
                      /\ estimatedCost step <> Some NegInf)
         (stepsOf scenario) ->
  totalCost scenario = Num 0
  /\ fst (dashboardSimulation random scenario s) = Throw TypeError.
Proof.
  intros Hsteps.
  assert (Htotal : totalCost scenario = Num 0).
  { unfold totalCost. fold (stepsOf scenario). rewrite fold_costs.
    - f_equal. rewrite Rplus_0_l.
      induction Hsteps as [| step steps [Hzero _] _ IH]; [reflexivity |].
      cbn [map fold_right]. rewrite Hzero, IH. lra.
    - apply Forall_forall. intros step Hstep.
      rewrite Forall_forall in Hsteps. apply (Hsteps step Hstep). }
  split; [exact Htotal |].
  unfold dashboardSimulation. rewrite Htotal.
  destruct (zero_baseline_throws random totalTime (orZero (risk scenario))
              defaultIterations s) as [Hcost _]; [| exact Hcost].
  unfold defaultIterations. lia.
Qed.

Lemma dashboardSimulation_without_costs_witness :
  totalCost (mkScenario (Some [mkSubGoal None; mkSubGoal (Some NaN)])
                        (Some (Num 40))) = Num 0
  /\ fst (dashboardSimulation (fun _ => / 2)
            (mkScenario (Some [mkSubGoal None; mkSubGoal (Some NaN)])
                        (Some (Num 40))) 0%nat) = Throw TypeError.
Proof.
  apply (dashboardSimulation_without_costs (fun _ => / 2)
           (mkScenario (Some [mkSubGoal None; mkSubGoal (Some NaN)])
                       (Some (Num 40))) 0%nat).
  repeat constructor; discriminate.
Defined.

(** ** When the histogram is returned *)

Lemma forEach_throws data bins val vals : forall histogram,
  In val vals -> arrayIndex (binIndex data bins val) = None ->
  forEach data bins vals histogram = Throw TypeError.
Proof.
  induction vals as [| v rest IH]; intros h Hin Hval; [destruct Hin |].
  cbn [forEach]. destruct Hin as [-> | Hin].
  - rewrite Hval. reflexivity.
  - destruct (arrayIndex (binIndex data bins v)) as [i |]; [| reflexivity].
    destruct (increment h i) as [h1 |]; [| reflexivity].
    apply IH; assumption.
Qed.

Lemma createHistogram_no_bins (val : number) (data : list number) :
  createHistogram (val :: data) 0 = Throw TypeError.
Proof.
  unfold createHistogram. cbn [forEach emptyHistogram seq map].
  destruct (arrayIndex (binIndex (val :: data) 0 val)) as [i |];
    [destruct i |]; reflexivity.
Qed.

Lemma min2_not_NaN a b : a <> NaN -> b <> NaN -> min2 a b <> NaN.
Proof.
  intros Ha Hb. destruct a, b; try contradiction; unfold min2;
    match goal with |- context [if ?c then _ else _] => destruct c end;
    discriminate.
Qed.

Lemma max2_not_NaN a b : a <> NaN -> b <> NaN -> max2 a b <> NaN.
Proof.
  intros Ha Hb. destruct a, b; try contradiction; unfold max2;
    match goal with |- context [if ?c then _ else _] => destruct c end;
    discriminate.
Qed.

Lemma fold_min2_not_NaN l : forall a,
  ~ In NaN l -> a <> NaN -> fold_left min2 l a <> NaN.
Proof.
  induction l as [| x l IH]; intros a Hl Ha; [exact Ha |].
  cbn [fold_left]. apply IH.
  - intros H. apply Hl. right. exact H.
  - apply min2_not_NaN; [exact Ha |]. intros ->. apply Hl. left. reflexivity.
Qed.

Lemma fold_max2_PosInf l : ~ In NaN l -> fold_left max2 l PosInf = PosInf.
Proof.
  induction l as [| x l IH]; intros Hl; [reflexivity |].
  cbn [fold_left].
  assert (Hx : max2 PosInf x = PosInf).
  { destruct x; try reflexivity. exfalso. apply Hl. left. reflexivity. }
  rewrite Hx. apply IH. intros H. apply Hl. right. exact H.
Qed.

Lemma fold_max2_has_PosInf l : forall a,
  ~ In NaN l -> a <> NaN -> In PosInf l -> fold_left max2 l a = PosInf.
Proof.
  induction l as [| x l IH]; intros a Hl Ha Hin; [destruct Hin |].
  cbn [fold_left].
  assert (Hl' : ~ In NaN l) by (intros H; apply Hl; right; exact H).
  destruct Hin as [-> | Hin].
  - assert (Hx : max2 a PosInf = PosInf) by (destruct a; try reflexivity; contradiction).
    rewrite Hx. apply fold_max2_PosInf. exact Hl'.
  - apply IH; [exact Hl' | | exact Hin].
    apply max2_not_NaN; [exact Ha |]. intros ->. apply Hl. left. reflexivity.
Qed.

Lemma fold_min2_NegInf l : ~ In NaN l -> fold_left min2 l NegInf = NegInf.
Proof.
  induction l as [| x l IH]; intros Hl; [reflexivity |].
  cbn [fold_left].
  assert (Hx : min2 NegInf x = NegInf).
  { destruct x; try reflexivity. exfalso. apply Hl. left. reflexivity. }
  rewrite Hx. apply IH. intros H. apply Hl. right. exact H.
Qed.

Lemma fold_min2_has_NegInf l : forall a,
  ~ In NaN l -> a <> NaN -> In NegInf l -> fold_left min2 l a = NegInf.
Proof.
  induction l as [| x l IH]; intros a Hl Ha Hin; [destruct Hin |].
  cbn [fold_left].
  assert (Hl' : ~ In NaN l) by (intros H; apply Hl; right; exact H).
  destruct Hin as [-> | Hin].
  - assert (Hx : min2 a NegInf = NegInf) by (destruct a; try reflexivity; contradiction).
    rewrite Hx. apply fold_min2_NegInf. exact Hl'.
  - apply IH; [exact Hl' | | exact Hin].
    apply min2_not_NaN; [exact Ha |]. intros ->. apply Hl. left. reflexivity.
Qed.

Lemma NaN_in_or_not (l : list number) : In NaN l \/ ~ In NaN l.
Proof.
  induction l as [| x l [IH | IH]].
  - right. intros [].
  - left. right. exact IH.
  - destruct x as [r | | |].
    + right. intros [H | H]; [discriminate | exact (IH H)].
    + right. intros [H | H]; [discriminate | exact (IH H)].
    + right. intros [H | H]; [discriminate | exact (IH H)].
    + left. left. reflexivity.
Qed.

(** A sample that is not finite has no bin. *)
Lemma binIndex_not_finite data bins val :
  In val data -> ~ finite val ->
  arrayIndex (binIndex data bins val) = None.
Proof.
  intros Hin Hval.
  assert (HNaN : In NaN data -> arrayIndex (binIndex data bins val) = None).
  { intros H. unfold binIndex.
    assert (Hmin : dataMin data = NaN).
    { unfold dataMin, Math_min. apply in_split in H.
      destruct H as (l1 & l2 & ->). rewrite fold_left_app. cbn [fold_left].
      assert (Hx : forall a, min2 a NaN = NaN) by (intros []; reflexivity).
      rewrite Hx. clear. induction l2 as [| x l IH]; [reflexivity | exact IH]. }
    rewrite Hmin. destruct val; reflexivity. }
  destruct val as [x | | |].
  - exfalso. apply Hval. exists x. reflexivity.
  - (* Infinity: the range is Infinity or NaN, and so is the bin width *)
    destruct (NaN_in_or_not data) as [H | HnoNaN]; [exact (HNaN H) |].
    unfold binIndex, binSize, range.
    assert (Hmax : dataMax data = PosInf).
    { apply fold_max2_has_PosInf; [exact HnoNaN | discriminate | exact Hin]. }
    assert (Hmin : dataMin data <> NaN).
    { apply fold_min2_not_NaN; [exact HnoNaN | discriminate]. }
    rewrite Hmax. unfold ofNat.
    destruct (dataMin data) as [m | | |]; try contradiction;
      cbn [nsub nadd nopp ndiv]; try reflexivity;
      destruct (Rsign_INR bins) as [-> | ->]; reflexivity.
  - (* -Infinity is the minimum, and -Infinity - -Infinity is NaN *)
    destruct (NaN_in_or_not data) as [H | HnoNaN]; [exact (HNaN H) |].
    unfold binIndex.
    assert (Hmin : dataMin data = NegInf).
    { apply fold_min2_has_NegInf; [exact HnoNaN | discriminate | exact Hin]. }
    rewrite Hmin. reflexivity.
  - reflexivity.
Qed.

Lemma all_equal_or_not (x0 : R) (xs : list R) :
  xs = repeat x0 (length xs) \/ exists y, In y xs /\ y <> x0.
Proof.
  induction xs as [| x xs [IH | (y & Hy & Hne)]].
  - left. reflexivity.
  - destruct (Req_dec x x0) as [-> | Hne].
    + left. cbn [length repeat]. rewrite <- IH. reflexivity.
    + right. exists x. split; [left; reflexivity | exact Hne].
  - right. exists y. split; [right; exact Hy | exact Hne].
Qed.

Lemma map_Num_repeat (x : R) (n : nat) :
  map Num (repeat x n) = repeat (Num x) n.
Proof.
  induction n as [| n IH]; [reflexivity |].
  cbn [repeat map]. rewrite IH. reflexivity.
Qed.

Lemma createHistogram_returned_data (data : list number) (bins : nat)
  (h : list Bin) :
  createHistogram data bins = Ok h ->
  data = []
  \/ ((1 <= bins)%nat
      /\ Forall finite data
      /\ exists x y, In (Num x) data /\ In (Num y) data /\ x < y).
Proof.
  - intros E. destruct data as [| val rest]; [left; reflexivity |].
    right.
    assert (Hbins : (1 <= bins)%nat).
    { destruct bins; [| lia]. rewrite createHistogram_no_bins in E.
      discriminate. }
    assert (Hfinite : Forall finite (val :: rest)).
    { apply Forall_forall. intros v Hv.
      destruct v as [x | | |]; [exists x; reflexivity | | |]; exfalso;
        unfold createHistogram in E;
        rewrite (forEach_throws _ _ _ _ _ Hv) in E;
        try discriminate;
        apply binIndex_not_finite; try exact Hv;
        intros [x Hx]; discriminate. }
    split; [exact Hbins |]. split; [exact Hfinite |].
    destruct (finite_list _ Hfinite) as [xs Hxs].
    destruct xs as [| x0 xs]; [discriminate |].
    destruct (all_equal_or_not x0 xs) as [Hsame | (y & Hy & Hne)].
    + exfalso. rewrite Hxs, Hsame in E.
      change (x0 :: repeat x0 (length xs)) with (repeat x0 (S (length xs))) in E.
      rewrite map_Num_repeat, createHistogram_zero_range in E. discriminate.
    + rewrite Hxs.
      destruct (Rtotal_order y x0) as [Hlt | [Heq | Hgt]]; [| contradiction |].
      * exists y, x0. split; [right; apply in_map; exact Hy |].
        split; [left; reflexivity | exact Hlt].
      * exists x0, y. split; [left; reflexivity |].
        split; [right; apply in_map; exact Hy | exact Hgt].
Qed.

(** X13: on data that is not empty, [createHistogram] raises the
    [TypeError] whenever there is no bin, or a sample is [NaN] or infinite,
    or all the samples are the same value. *)
Theorem createHistogram_throws (data : list number) (bins : nat) :
  data <> [] ->
  bins = 0%nat
  \/ (exists v, In v data /\ ~ finite v)
  \/ (exists v, data = repeat v (length data)) ->
  createHistogram data bins = Throw TypeError.
Proof.
  intros Hdata Hcause.
  destruct (createHistogram data bins) as [h | []] eqn:E; [| reflexivity].
  exfalso. apply createHistogram_returned_data in E.
  destruct E as [Hnil | (Hbins & Hfinite & x & y & Hx & Hy & Hxy)];
    [exact (Hdata Hnil) |].
  destruct Hcause as [Hzero | [(v & Hv & Hnot) | (v & Hsame)]].
  - lia.
  - rewrite Forall_forall in Hfinite. exact (Hnot (Hfinite v Hv)).
  - rewrite Hsame in Hx, Hy.
    apply repeat_spec in Hx, Hy. rewrite <- Hy in Hx.
    injection Hx as Hx. lra.
Qed.

Lemma createHistogram_throws_witness :
  createHistogram [Num 3; PosInf; Num 4] 10 = Throw TypeError.
Proof.
  apply (createHistogram_throws [Num 3; PosInf; Num 4] 10).
  - discriminate.
  - right. left. exists PosInf. split; [right; left; reflexivity |].
    intros [x Hx]. discriminate.
Defined.

(** ** The labels of the bins *)

Lemma increment_labels histogram : forall i histogram',
  increment histogram i = Some histogram' ->
  map bin histogram' = map bin histogram.
Proof.
  induction histogram as [| b rest IH]; intros i h' E; [discriminate |].
  destruct i as [| i]; cbn [increment] in E.
  - injection E as <-. reflexivity.
  - destruct (increment rest i) as [rest' |] eqn:Erest; [| discriminate].
    injection E as <-. cbn [map]. rewrite (IH i rest' Erest). reflexivity.
Qed.

Lemma forEach_labels data bins vals : forall histogram histogram',
  forEach data bins vals histogram = Ok histogram' ->
  map bin histogram' = map bin histogram.
Proof.
  induction vals as [| val rest IH]; intros h h' E; cbn [forEach] in E.
  - injection E as <-. reflexivity.
  - destruct (arrayIndex (binIndex data bins val)) as [i |]; [| discriminate].
    destruct (increment h i) as [h1 |] eqn:E1; [| discriminate].
    rewrite (IH h1 h' E). apply (increment_labels h i h1 E1).
Qed.

(** The label of bin [i], as [emptyHistogram] computes it. *)
Lemma createHistogram_labels data bins histogram i b :
  createHistogram data bins = Ok histogram ->
  nth_error histogram i = Some b ->
  bin b = (Math_round (dataMin data + ofNat i * binSize data bins),
           Math_round (dataMin data + ofNat (S i) * binSize data bins))%js
  /\ (i < bins)%nat.
Proof.
  intros E Hi. apply forEach_labels in E.
  apply (map_nth_error bin) in Hi. rewrite E in Hi.
  unfold emptyHistogram in Hi. rewrite map_map in Hi. cbn [bin] in Hi.
  assert (Hlt : (i < bins)%nat).
  { assert (Hsome : nth_error
                      (map (fun x => (Math_round
                                        (dataMin data
                                         + ofNat x * binSize data bins),
                                      Math_round
                                        (dataMin data
                                         + (ofNat x + Num 1)
                                           * binSize data bins))%js)
                           (seq 0 bins)) i <> None)
      by (rewrite Hi; discriminate).
    apply nth_error_Some in Hsome. rewrite length_map, length_seq in Hsome.
    exact Hsome. }
  split; [| exact Hlt].
  rewrite (nth_error_map _ i) in Hi.
  rewrite nth_error_seq in Hi.
  destruct (Nat.ltb_spec i bins) as [_ | Hge]; [| lia].
  cbn [option_map] in Hi. injection Hi as <-.
  unfold ofNat. cbn [nadd]. rewrite S_INR. reflexivity.
Qed.

(** X12: in every histogram [createHistogram] returns, the labels are
    contiguous: the upper label of a bin is the lower label of the next
    one; and when there are samples, the lower label of the first bin is
    the rounded minimum. *)
Theorem histogram_labels_contiguous (data : list number) (bins : nat)
  (histogram : list Bin) :
  createHistogram data bins = Ok histogram ->
  (forall i b b',
      nth_error histogram i = Some b ->
      nth_error histogram (S i) = Some b' ->
      snd (bin b) = fst (bin b'))
  /\ (data <> [] ->
      forall b, nth_error histogram 0 = Some b ->
                fst (bin b) = Math_round (dataMin data)).
Proof.
  intros E. split.
  - intros i b b' Hi Hi'.
    destruct (createHistogram_labels _ _ _ _ _ E Hi) as [-> _].
    destruct (createHistogram_labels _ _ _ _ _ E Hi') as [-> _].
    reflexivity.
  - intros Hdata b H0.
    destruct (createHistogram_labels _ _ _ _ _ E H0) as [-> Hbins].
    cbn [fst].
    destruct (createHistogram_returned_data _ _ _ E)
      as [Hnil | (_ & Hfinite & x & y & Hx & Hy & Hxy)];
      [contradiction |].
    destruct (finite_list data Hfinite) as [xs ->].
    assert (Hinj : forall v, In (Num v) (map Num xs) -> In v xs).
    { intros v Hv. apply in_map_iff in Hv. destruct Hv as (w & [= ->] & Hw).
      exact Hw. }
    destruct (data_bounds xs x y (Hinj x Hx) (Hinj y Hy) Hxy)
      as (m & M & Hmin & Hmax & HmM & _).
    assert (Hb : 1 <= INR bins) by (apply (le_INR 1); lia).
    unfold binSize, range, ofNat. rewrite Hmin, Hmax.
    cbn [nsub nadd nopp]. rewrite ndiv_Num by lra.
    cbn [nmul nadd INR]. f_equal. f_equal. lra.
Qed.

Lemma histogram_labels_contiguous_witness :
  (forall i b b',
      nth_error (valueOf [] (createHistogram (map Num [1; 2; 5]) 10)) i
      = Some b ->
      nth_error (valueOf [] (createHistogram (map Num [1; 2; 5]) 10)) (S i)
      = Some b' ->
      snd (bin b) = fst (bin b'))
  /\ (map Num [1; 2; 5] <> [] ->
      forall b,
        nth_error (valueOf [] (createHistogram (map Num [1; 2; 5]) 10)) 0
        = Some b ->
        fst (bin b) = Math_round (dataMin (map Num [1; 2; 5]))).
Proof.
  apply (histogram_labels_contiguous (map Num [1; 2; 5]) 10).
  destruct (createHistogram_counts (map Num [1; 2; 5]) 10) as (h & E & _).
  - lia.
  - repeat constructor; eexists; reflexivity.
  - exists 1, 2. cbn [map In]. split; [auto |]. split; [auto | lra].
  - rewrite E. reflexivity.
Defined.

(** ** When a run returns *)

(** Two samples of a series that differ come from draws that differ. *)
Lemma different_samples_different_draws (random : nat -> R)
  (base riskFactor : number) (offset n : nat) (x y : R) :
  In (Num x)
     (map (fun i => triangularAt (base * minMultiplier) base
                                 (base * maxMultiplier riskFactor)
                                 (Num (random (offset + 2 * i)%nat)))
          (seq 0 n)) ->
  In (Num y)
     (map (fun i => triangularAt (base * minMultiplier) base
                                 (base * maxMultiplier riskFactor)
                                 (Num (random (offset + 2 * i)%nat)))
          (seq 0 n)) ->
  x < y ->
  exists i j, (i < n)%nat /\ (j < n)%nat
              /\ random (offset + 2 * i)%nat <> random (offset + 2 * j)%nat.
Proof.
  intros Hx Hy Hxy. apply in_map_iff in Hx, Hy.
  destruct Hx as (i & Ei & Hi), Hy as (j & Ej & Hj).
  apply in_seq in Hi, Hj. exists i, j. repeat split; try lia.
  intros Hdraws. rewrite Hdraws, Ej in Ei. injection Ei as Ei. lra.
Qed.

(** X14: a run of at least one iteration returns a result only if two of
    the draws used for the costs differ and two of the draws used for the
    times differ: when all the cost draws, or all the time draws, are the
    same number, [runMonteCarlo] raises the [TypeError], whatever its
    arguments. *)
Theorem runMonteCarlo_returns_only_if (random : nat -> R)
  (baseCost baseTime riskFactor : number) (iterations : Z) (s : nat)
  (r : SimulationResult) :
  (1 <= iterations)%Z ->
  fst (runMonteCarlo random baseCost baseTime riskFactor iterations s) = Ok r ->
  (exists i j, (i < Z.to_nat iterations)%nat /\ (j < Z.to_nat iterations)%nat
               /\ random (s + 2 * i)%nat <> random (s + 2 * j)%nat)
  /\ (exists i j, (i < Z.to_nat iterations)%nat
                  /\ (j < Z.to_nat iterations)%nat
                  /\ random (S s + 2 * i)%nat <> random (S s + 2 * j)%nat).
Proof.
  intros Hiterations Hrun.
  destruct (runMonteCarlo_result _ _ _ _ _ _ _ Hrun)
    as (h1 & h2 & E1 & E2 & _).
  rewrite simulate_eq in E1, E2. cbn [fst costs times] in E1, E2.
  assert (Hn : Z.to_nat iterations = S (Z.to_nat (iterations - 1))) by lia.
  apply createHistogram_returned_data in E1, E2.
  split.
  - destruct E1 as [Hnil | (_ & _ & x & y & Hx & Hy & Hxy)].
    + rewrite Hn in Hnil. discriminate Hnil.
    + exact (different_samples_different_draws random baseCost riskFactor s
               (Z.to_nat iterations) x y Hx Hy Hxy).
  - destruct E2 as [Hnil | (_ & _ & x & y & Hx & Hy & Hxy)].
    + rewrite Hn in Hnil. discriminate Hnil.
    + apply (different_samples_different_draws random baseTime riskFactor
               (S s) (Z.to_nat iterations) x y); [| | exact Hxy].
      * erewrite map_ext; [exact Hx |]. intros i. unfold timeOf.
        do 3 f_equal. lia.
      * erewrite map_ext; [exact Hy |]. intros i. unfold timeOf.
        do 3 f_equal. lia.
Qed.

Lemma runMonteCarlo_returns_only_if_witness :
  (exists i j, (i < Z.to_nat 10000)%nat /\ (j < Z.to_nat 10000)%nat
               /\ scenarioDraws (0 + 2 * i)%nat
                  <> scenarioDraws (0 + 2 * j)%nat)
  /\ (exists i j, (i < Z.to_nat 10000)%nat /\ (j < Z.to_nat 10000)%nat
                  /\ scenarioDraws (1 + 2 * i)%nat
                     <> scenarioDraws (1 + 2 * j)%nat).
Proof.
  destruct scenario_first_run as (r & E & _).
  apply (runMonteCarlo_returns_only_if scenarioDraws (Num 1000) (Num 30)
           (Num 50) 10000 0%nat r); [lia | exact E].
Defined.

(** ** The repair of a truncated response *)

Lemma odd_occurrence_exists (c : codeUnit) (t : text) :
  Nat.odd (occurrences c t) = true -> existsb (N.eqb c) t = true.
Proof.
  intros Hodd. apply existsb_exists. exists c. split; [| apply N.eqb_refl].
  apply (count_occ_In N.eq_dec). unfold occurrences in Hodd.
  destruct (count_occ N.eq_dec t c); [discriminate | lia].
Qed.

(** A text that does not end with [']'] or ['}'] receives a closing quote
    if its quotes are odd in number, then the missing braces, then the
    missing brackets. *)
Lemma repair_incomplete (t : text) :
  endsWith t [closeBracket] = false -> endsWith t [closeBrace] = false ->
  repair t
  = t ++ repeat quote (if Nat.odd (occurrences quote t) then 1 else 0)
      ++ repeat closeBrace
           (occurrences openBrace t - occurrences closeBrace t)
      ++ repeat closeBracket
           (occurrences openBracket t - occurrences closeBracket t).
Proof.
  intros Hbracket Hbrace. unfold repair. rewrite Hbracket, Hbrace.
  cbn [negb andb].
  replace (Z.to_nat (Z.of_nat (occurrences openBrace t)
                     - Z.of_nat (occurrences closeBrace t)))
    with (occurrences openBrace t - occurrences closeBrace t)%nat by lia.
  replace (Z.to_nat (Z.of_nat (occurrences openBracket t)
                     - Z.of_nat (occurrences closeBracket t)))
    with (occurrences openBracket t - occurrences closeBracket t)%nat by lia.
  destruct (Nat.odd (occurrences quote t)) eqn:Hodd.
  - rewrite (odd_occurrence_exists quote t Hodd). cbn [andb repeat].
    rewrite <- !app_assoc. reflexivity.
  - rewrite andb_false_r. cbn [repeat app]. rewrite <- app_assoc. reflexivity.
Qed.

Lemma repair_complete (t : text) :
  endsWith t [closeBracket] = true \/ endsWith t [closeBrace] = true ->
  repair t = t.
Proof.
  intros [H | H]; unfold repair; rewrite H; cbn [negb andb];
    [reflexivity | rewrite andb_false_r; reflexivity].
Qed.

Lemma occurrences_app (c : codeUnit) (t1 t2 : text) :
  occurrences c (t1 ++ t2) = (occurrences c t1 + occurrences c t2)%nat.
Proof. apply count_occ_app. Qed.

Lemma occurrences_repeat_same (c : codeUnit) (n : nat) :
  occurrences c (repeat c n) = n.
Proof. apply count_occ_repeat_eq. reflexivity. Qed.

Lemma occurrences_repeat_other (c d : codeUnit) (n : nat) :
  c <> d -> occurrences c (repeat d n) = 0%nat.
Proof. apply count_occ_repeat_neq. Qed.

Section Repaired.
Variable t : text.
Hypothesis no_bracket : endsWith t [closeBracket] = false.
Hypothesis no_brace : endsWith t [closeBrace] = false.

Lemma repaired_counts :
  occurrences openBrace (repair t) = occurrences openBrace t
  /\ occurrences closeBrace (repair t)
     = Nat.max (occurrences openBrace t) (occurrences closeBrace t)
  /\ occurrences openBracket (repair t) = occurrences openBracket t
  /\ occurrences closeBracket (repair t)
     = Nat.max (occurrences openBracket t) (occurrences closeBracket t)
  /\ occurrences quote (repair t)
     = (occurrences quote t
        + if Nat.odd (occurrences quote t) then 1 else 0)%nat.
Proof.
  rewrite (repair_incomplete t no_bracket no_brace).
  rewrite !occurrences_app.
  rewrite !occurrences_repeat_same.
  rewrite !(occurrences_repeat_other openBrace) by discriminate.
  rewrite !(occurrences_repeat_other openBracket) by discriminate.
  rewrite (occurrences_repeat_other closeBrace quote) by discriminate.
  rewrite (occurrences_repeat_other closeBrace closeBracket) by discriminate.
  rewrite (occurrences_repeat_other closeBracket quote) by discriminate.
  rewrite (occurrences_repeat_other closeBracket closeBrace) by discriminate.
  rewrite (occurrences_repeat_other quote closeBrace) by discriminate.
  rewrite (occurrences_repeat_other quote closeBracket) by discriminate.
  repeat split; lia.
Qed.
End Repaired.

Lemma even_after_fix (n : nat) :
  Nat.odd (n + if Nat.odd n then 1 else 0) = false.
Proof.
  destruct (Nat.odd n) eqn:Hodd.
  - rewrite Nat.add_1_r, Nat.odd_succ, <- Nat.negb_odd, Hodd. reflexivity.
  - rewrite Nat.add_0_r. exact Hodd.
Qed.

(** X16: the repair is idempotent: a repaired text is left as it is by a
    second repair. *)
Theorem repair_idempotent (t : text) : repair (repair t) = repair t.
Proof.
  destruct (endsWith t [closeBracket]) eqn:Hbracket;
    [rewrite (repair_complete t) by (left; exact Hbracket);
     apply repair_complete; left; exact Hbracket |].
  destruct (endsWith t [closeBrace]) eqn:Hbrace;
    [rewrite (repair_complete t) by (right; exact Hbrace);
     apply repair_complete; right; exact Hbrace |].
  destruct (repaired_counts t Hbracket Hbrace)
    as (Hob & Hcb & Hok & Hck & Hq).
  destruct (endsWith (repair t) [closeBracket]) eqn:Hbracket';
    [apply repair_complete; left; exact Hbracket' |].
  destruct (endsWith (repair t) [closeBrace]) eqn:Hbrace';
    [apply repair_complete; right; exact Hbrace' |].
  rewrite (repair_incomplete (repair t) Hbracket' Hbrace').
  rewrite Hob, Hcb, Hok, Hck, Hq, even_after_fix.
  replace (occurrences openBrace t
           - Nat.max (occurrences openBrace t) (occurrences closeBrace t))%nat
    with 0%nat by lia.
  replace (occurrences openBracket t
           - Nat.max (occurrences openBracket t)
                     (occurrences closeBracket t))%nat
    with 0%nat by lia.
  cbn [repeat app]. apply app_nil_r.
Qed.



(** ** The text handed to JSON.parse *)

Lemma trimStart_whitespace (ws t : text) :
  Forall (fun c => isWhiteSpace c = true) ws ->
  trimStart (ws ++ t) = trimStart t.
Proof.
  induction 1 as [| c ws Hc _ IH]; [reflexivity |].
  cbn [app trimStart]. rewrite Hc. exact IH.
Qed.

Lemma trimStart_tight (c : codeUnit) (t : text) :
  isWhiteSpace c = false -> trimStart (c :: t) = c :: t.
Proof. intros Hc. cbn [trimStart]. rewrite Hc. reflexivity. Qed.

Lemma trim_surrounded (ws1 ws2 t rest rest' : text) (c d : codeUnit) :
  Forall (fun c => isWhiteSpace c = true) ws1 ->
  Forall (fun c => isWhiteSpace c = true) ws2 ->
  t = c :: rest -> isWhiteSpace c = false ->
  rev t = d :: rest' -> isWhiteSpace d = false ->
  trim (ws1 ++ t ++ ws2) = t.
Proof.
  intros Hws1 Hws2 Ht Hc Hrev Hd. unfold trim.
  rewrite (trimStart_whitespace ws1) by exact Hws1.
  rewrite Ht at 1. cbn [app]. rewrite trimStart_tight by exact Hc.
  change (c :: rest ++ ws2) with ((c :: rest) ++ ws2). rewrite <- Ht.
  rewrite rev_app_distr, trimStart_whitespace.
  - rewrite Hrev, trimStart_tight by exact Hd. rewrite <- Hrev.
    apply rev_involutive.
  - apply Forall_rev. exact Hws2.
Qed.

Lemma startsWith_one (t : text) (c : codeUnit) :
  startsWith t [c] = true -> exists rest, t = c :: rest.
Proof.
  destruct t as [| c' rest]; cbn [startsWith]; [discriminate |].
  rewrite andb_true_r. intros H. apply N.eqb_eq in H. subst c'.
  exists rest. reflexivity.
Qed.

(** X17: a response text that starts with ['['] or ['{'] and ends with
    [']'] or ['}'], with any white space around it, is handed to
    [JSON.parse] trimmed and otherwise unchanged: no fence is removed and
    nothing is appended. *)
Theorem prepareResponse_complete (ws1 ws2 t : text) :
  Forall (fun c => isWhiteSpace c = true) ws1 ->
  Forall (fun c => isWhiteSpace c = true) ws2 ->
  startsWith t [openBracket] = true \/ startsWith t [openBrace] = true ->
  endsWith t [closeBracket] = true \/ endsWith t [closeBrace] = true ->
  prepareResponse (Some (ws1 ++ t ++ ws2)) = t.
Proof.
  intros Hws1 Hws2 Hstart Hend. unfold prepareResponse.
  assert (Hfirst : exists c rest, t = c :: rest /\ isWhiteSpace c = false
                                  /\ c <> backtick).
  { destruct Hstart as [H | H]; apply startsWith_one in H;
      destruct H as [rest ->]; do 2 eexists;
      (split; [reflexivity | split; [reflexivity | discriminate]]). }
  assert (Hlast : exists d rest', rev t = d :: rest' /\ isWhiteSpace d = false).
  { destruct Hend as [H | H]; unfold endsWith in H; cbn [rev app] in H;
      apply startsWith_one in H; destruct H as [rest' ->];
      do 2 eexists; (split; [reflexivity | reflexivity]). }
  destruct Hfirst as (c & rest & Ht & Hc & Hfence).
  destruct Hlast as (d & rest' & Hrev & Hd).
  rewrite (trim_surrounded ws1 ws2 t rest rest' c d) by assumption.
  assert (Hnofence : startsWith t fence = false).
  { rewrite Ht. cbn [startsWith fence].
    destruct (N.eqb_spec c 96%N) as [-> | _]; [contradiction | reflexivity]. }
  rewrite Hnofence. apply repair_complete. exact Hend.
Qed.

Lemma prepareResponse_complete_witness :
  prepareResponse (Some (codeUnits " " ++ codeUnits "[{a:1}]" ++ [LF]))
  = codeUnits "[{a:1}]".
Proof.
  apply (prepareResponse_complete (codeUnits " ") [LF] (codeUnits "[{a:1}]")).
  - repeat constructor.
  - repeat constructor.
  - left. reflexivity.
  - left. reflexivity.
Defined.

(** X18: a response wrapped in a Markdown fence (three backticks and
    "json", a line feed, the body, a line feed, three backticks), with any
    white space around it, is unwrapped: what is repaired and handed to
    [JSON.parse] is the body. *)
Theorem prepareResponse_fenced (ws1 ws2 body : text) :
  Forall (fun c => isWhiteSpace c = true) ws1 ->
  Forall (fun c => isWhiteSpace c = true) ws2 ->
  prepareResponse
    (Some (ws1 ++ (fence ++ LF :: body ++ [LF; backtick; backtick; backtick])
               ++ ws2))
  = repair body.
Proof.
  intros Hws1 Hws2. unfold prepareResponse.
  set (t := fence ++ LF :: body ++ [LF; backtick; backtick; backtick]).
  assert (Hrev : rev t
                 = backtick
                   :: [backtick; backtick; LF] ++ rev body ++ LF :: rev fence).
  { unfold t. rewrite rev_app_distr. cbn [rev]. rewrite rev_app_distr.
    cbn [rev app]. rewrite <- !app_assoc. reflexivity. }
  rewrite (trim_surrounded ws1 ws2 t
             (skipn 1 fence ++ LF :: body ++ [LF; backtick; backtick; backtick])
             _ backtick backtick Hws1 Hws2 eq_refl eq_refl Hrev eq_refl).
  unfold t at 1. cbn [startsWith fence app N.eqb Pos.eqb andb].
  unfold t, removeOpeningFence. cbn [fence app skipn].
  change (LF =? LF)%N with true. cbv iota.
  unfold removeClosingFence. rewrite rev_app_distr. cbn [rev app].
  unfold LF, backtick. rewrite rev_involutive. reflexivity.
Qed.

Lemma prepareResponse_fenced_witness :
  prepareResponse
    (Some ([LF] ++ (fence ++ LF :: codeUnits "[1,2"
                      ++ [LF; backtick; backtick; backtick])
               ++ codeUnits " "))
  = repair (codeUnits "[1,2").
Proof.
  apply (prepareResponse_fenced [LF] (codeUnits " ") (codeUnits "[1,2"));
    repeat constructor.
Defined.

(** X19: a missing response text, an empty one and one made of white space
    only all give the empty text, to which nothing is appended. *)
Theorem prepareResponse_blank (ws : text) :
  Forall (fun c => isWhiteSpace c = true) ws ->
  prepareResponse None = [] /\ prepareResponse (Some ws) = [].
Proof.
  intros Hws. split; [reflexivity |].
  unfold prepareResponse, trim.
  rewrite <- (app_nil_r ws), trimStart_whitespace by exact Hws.
  reflexivity.
Qed.

Lemma prepareResponse_blank_witness :
  prepareResponse None = [] /\ prepareResponse (Some (codeUnits "  ")) = [].
Proof. apply (prepareResponse_blank (codeUnits "  ")). repeat constructor. Defined.
